(** * Keyword search over a directory tree: partition, scan, aggregate

    A shallow embedding of [search_multiprocessing.py] and
    [search_threading.py].  Python values are modelled as follows.

    - [int] is [Z]; [//] is [Z.div] (both round towards minus infinity).
    - [str] is [string]; [kw in content] is [contains]; [str.lower] belongs
      to the runtime and is a field of [platform], so every general theorem
      holds for whatever case mapping the interpreter implements.
    - [Path] is the string [str(fp)]; [Path.suffix] is [suffix].
    - [dict] / [defaultdict(list)] is a [gmap] from keyword to the list of
      paths; a key is present exactly when it has been assigned.
    - an exception is the [Raises] case of [py_result].
    - the file system, [os.cpu_count()] and the order in which the result
      queue hands partial results to the parent are fields of [platform]. *)

From Stdlib Require Import ZArith Ascii String List Lia Permutation.
From stdpp Require Import gmap strings list fin_maps.

Open Scope Z_scope.

(** ** Python values *)

Definition Path := string.

Abbreviation dict := (gmap string (list Path)).

Inductive exception :=
  | ValueError (msg : string).

Inductive py_result (A : Type) :=
  | Returns (a : A)
  | Raises (e : exception).
Arguments Returns {A} a.
Arguments Raises {A} e.

(** Outcome of [path.read_text(encoding="utf-8", errors="strict")]: the text,
    or one of the two exception classes the call raises for a file that
    cannot be opened, read or decoded. *)
Inductive read_outcome :=
  | Text (content : string)
  | OSError (exc : string)
  | UnicodeError (exc : string).

Record platform := {
  str_lower : string -> string;
  fs_rglob : string -> list Path;
  fs_is_file : Path -> bool;
  fs_read_text : Path -> read_outcome;
  os_cpu_count : option Z;
  queue_order : list dict -> list dict
}.

(** The queue delivers every partial result that was put, once, in some
    order. *)
Definition queue_delivers (rt : platform) : Prop :=
  forall puts : list dict, Permutation puts (queue_order rt puts).

Definition len {A} (s : list A) : Z := Z.of_nat (length s).

(** [x or d] for [x : int | None]: [None] and [0] are falsy. *)
Definition py_or (x : option Z) (d : Z) : Z :=
  match x with
  | Some v => if v =? 0 then d else v
  | None => d
  end.

(** Number of items of [range(start, stop, step)] for a non-zero step. *)
Definition range_length (start stop step : Z) : nat :=
  if 0 <? step then
    if start <? stop then Z.to_nat ((stop - start - 1) / step + 1) else 0%nat
  else
    if stop <? start then Z.to_nat ((start - stop - 1) / (- step) + 1) else 0%nat.

Definition py_range (start stop step : Z) : py_result (list Z) :=
  if step =? 0 then Raises (ValueError "range() arg 3 must not be zero")
  else Returns (map (fun k => start + Z.of_nat k * step)
                    (seq 0 (range_length start stop step))).

(** A slice bound as Python normalises it against the length. *)
Definition slice_bound (l i : Z) : nat :=
  Z.to_nat (if i <? 0 then Z.max 0 (i + l) else Z.min i l).

(** [s[i:j]] *)
Definition py_slice {A} (s : list A) (i j : Z) : list A :=
  let lo := slice_bound (len s) i in
  let hi := slice_bound (len s) j in
  take (hi - lo) (drop lo s).

(** [kw in content] on strings: [kw] starts at some position of [content]. *)
Fixpoint contains (kw content : string) : bool :=
  String.prefix kw content ||
  match content with
  | EmptyString => false
  | String _ rest => contains kw rest
  end.

(** The relation [contains] decides. *)
Definition substring_of (kw content : string) : Prop :=
  exists pre post, content = pre +:+ kw +:+ post.

(** ASCII case mapping: what [str.lower] does on ASCII text. *)
Definition lower_char (c : ascii) : ascii :=
  let n := nat_of_ascii c in
  if ((65 <=? n) && (n <=? 90))%nat then ascii_of_nat (n + 32) else c.

Fixpoint ascii_lower (s : string) : string :=
  match s with
  | EmptyString => EmptyString
  | String c rest => String (lower_char c) (ascii_lower rest)
  end.

(** ** pathlib *)

Fixpoint has_char (c : ascii) (s : string) : bool :=
  match s with
  | EmptyString => false
  | String d rest => Ascii.eqb c d || has_char c rest
  end.

(** [Path.name]: the final component. *)
Fixpoint name (p : string) : string :=
  match p with
  | EmptyString => EmptyString
  | String c rest =>
      if has_char "/" rest then name rest
      else if Ascii.eqb c "/" then rest else p
  end.

(** [s.rfind(".")], [None] standing for -1. *)
Fixpoint rfind_dot (s : string) : option nat :=
  match s with
  | EmptyString => None
  | String c rest =>
      match rfind_dot rest with
      | Some i => Some (S i)
      | None => if Ascii.eqb c "." then Some 0%nat else None
      end
  end.

Fixpoint str_drop (n : nat) (s : string) : string :=
  match n, s with
  | O, _ => s
  | S n', EmptyString => EmptyString
  | S n', String _ rest => str_drop n' rest
  end.

(** [Path.suffix]: [name[i:]] when [0 < i < len(name) - 1] for the last dot
    [i], else the empty string. *)
Definition suffix (p : Path) : string :=
  let nm := name p in
  match rfind_dot nm with
  | Some i =>
      if ((0 <? i) && (Z.of_nat i <? Z.of_nat (String.length nm) - 1)%Z)%nat
      then str_drop i nm else EmptyString
  | None => EmptyString
  end.

(** ** Partitioner: [_chunks] (identical in both modules) *)

Definition _chunks {A} (seq : list A) (n : Z) : py_result (list (list A)) :=
  if n <=? 0 then Returns [seq]
  else
    let size := (len seq + n - 1) / n in
    match py_range 0 (len seq) size with
    | Raises e => Raises e
    | Returns idx => Returns (map (fun i => py_slice seq i (i + size)) idx)
    end.

(** ** Scanner and workers *)

(** [f"[WARN] Cannot read {path}: {exc}"] *)
Definition warning (path : Path) (exc : string) : string :=
  "[WARN] Cannot read " +:+ path +:+ ": " +:+ exc.

Section Search.

Context (rt : platform).

(** [_read_text_safely]: the text or [None], with what it prints. *)
Definition _read_text_safely (path : Path) : option string * list string :=
  match fs_read_text rt path with
  | Text content => (Some content, [])
  | OSError exc | UnicodeError exc =>
      (None, [warning path exc])
  end.

(** [d[kw].append(fp)] on a [defaultdict(list)]. *)
Definition append_path (d : dict) (kw : string) (fp : Path) : dict :=
  <[kw := default [] (d !! kw) ++ [fp]]> d.

(** The two keyword loops that follow a successful read, in [_worker_process]
    (lines 55-63) and in [_scan_file] (lines 45-55). *)
Definition scan_content (content : string) (fp : Path) (keywords : list string)
    (case_insensitive : bool) (out : dict) : dict :=
  if case_insensitive then
    let content_cmp := str_lower rt content in
    foldl (fun out kw =>
             if contains (str_lower rt kw) content_cmp
             then append_path out kw fp else out) out keywords
  else
    foldl (fun out kw =>
             if contains kw content then append_path out kw fp else out)
          out keywords.

(** The body of the worker's file loop, lines 51-63, on the pair of the
    local dict and what was printed so far. *)
Definition worker_step (keywords : list string) (case_insensitive : bool)
    (st : dict * list string) (fp : Path) : dict * list string :=
  let '(local, printed) := st in
  match _read_text_safely fp with
  | (None, w) => (local, printed ++ w)
  | (Some content, w) =>
      (scan_content content fp keywords case_insensitive local, printed ++ w)
  end.

(** [_worker_process]: the dict put on the queue, and what was printed. *)
Definition _worker_process (files : list Path) (keywords : list string)
    (case_insensitive : bool) : dict * list string :=
  foldl (worker_step keywords case_insensitive) (∅, []) files.

(** [_scan_file] of the threading module: the shared map after the call, and
    what was printed.  Each append happens under the lock. *)
Definition _scan_file (file_path : Path) (keywords : list string)
    (out_map : dict) (case_insensitive : bool) : dict * list string :=
  match _read_text_safely file_path with
  | (None, w) => (out_map, w)
  | (Some content, w) =>
      (scan_content content file_path keywords case_insensitive out_map, w)
  end.

(** ** Orchestrator *)

(** The file collection loop, lines 100-107 (89-96 in the threading module).
    [allow_extensions] is [None] or a collection; it is truthy when it has an
    element. *)
Definition collect_files (source_dir : string)
    (allow_extensions : option (list string)) : list Path :=
  foldl (fun files p =>
           if fs_is_file rt p then
             match allow_extensions with
             | Some (e :: es) =>
                 if bool_decide (str_lower rt (suffix p) ∈ e :: es)
                 then files ++ [p] else files
             | _ => files ++ [p]
             end
           else files) [] (fs_rglob rt source_dir).

Definition num_procs (files : list Path) : Z :=
  let max_procs := py_or (os_cpu_count rt) 2 in
  Z.max 1 (Z.min (len files) max_procs).

Definition num_threads (files : list Path) : Z :=
  let max_threads := py_or (os_cpu_count rt) 4 in
  Z.max 1 (Z.min (len files) max_threads).

(** The batches for which a worker is started: [if not batch: continue]. *)
Definition started (chunks : list (list Path)) : list (list Path) :=
  List.filter (fun batch => negb (bool_decide (batch = []))) chunks.

(** [aggregated[kw].extend(paths)] for every item of one partial result. *)
Definition extend_with (aggregated partial : dict) : dict :=
  map_fold (fun kw paths agg => <[kw := default [] (agg !! kw) ++ paths]> agg)
           aggregated partial.

Definition aggregate (partials : list dict) : dict :=
  foldl extend_with ∅ partials.

(** Lines 116-143 for a given number of chunks: partition, one worker per
    non-empty batch, merge in the order of arrival. *)
Definition pipeline (files : list Path) (keywords : list string)
    (case_insensitive : bool) (n : Z) : py_result dict :=
  match _chunks files n with
  | Raises e => Raises e
  | Returns chunks =>
      let puts :=
        map (fun batch => fst (_worker_process batch keywords case_insensitive))
            (started chunks) in
      Returns (aggregate (queue_order rt puts))
  end.

Definition multiprocessing_search (source_dir : string) (keywords : list string)
    (allow_extensions : option (list string)) (case_insensitive : bool)
    : py_result dict :=
  let files := collect_files source_dir allow_extensions in
  if bool_decide (files = []) then Returns ∅
  else pipeline files keywords case_insensitive (num_procs files).

(** The batches [threaded_search] starts a thread for, lines 98-119. *)
Definition threaded_batches (source_dir : string)
    (allow_extensions : option (list string)) : py_result (list (list Path)) :=
  let files := collect_files source_dir allow_extensions in
  if bool_decide (files = []) then Returns []
  else
    match _chunks files (num_threads files) with
    | Raises e => Raises e
    | Returns chunks => Returns (started chunks)
    end.

End Search.

(** ** A concrete platform for examples

    The scenario directory of the specification plus an undecodable file;
    results arrive in the order the workers were started. *)
Definition demo_read (p : Path) : read_outcome :=
  if String.eqb p "root/a.txt" then Text "alpha beta"
  else if String.eqb p "root/b.txt" then Text "beta gamma"
  else if String.eqb p "root/c.md" then Text "alpha"
  else if String.eqb p "root/d.TXT" then Text "the foo bar"
  else if String.eqb p "root/bad.txt" then UnicodeError "invalid start byte"
  else OSError "No such file or directory".

Definition demo (cpus : option Z) : platform := {|
  str_lower := ascii_lower;
  fs_rglob := fun _ =>
    ["root/a.txt"; "root/b.txt"; "root/sub"; "root/c.md"; "root/d.TXT";
     "root/bad.txt"];
  fs_is_file := fun p => negb (String.eqb p "root/sub");
  fs_read_text := demo_read;
  os_cpu_count := cpus;
  queue_order := fun puts => puts
|}.

(** ** Specification-side notions *)

(** Keyword [kw] occurs in [content], under the given case setting. *)
Definition keyword_in (rt : platform) (case_insensitive : bool)
    (kw content : string) : Prop :=
  if case_insensitive
  then substring_of (str_lower rt kw) (str_lower rt content)
  else substring_of kw content.

(** The test the two keyword loops perform. *)
Definition matches (rt : platform) (case_insensitive : bool)
    (kw content : string) : bool :=
  if case_insensitive
  then contains (str_lower rt kw) (str_lower rt content)
  else contains kw content.

(** [d.get(K, [])] *)
Definition get (d : dict) (K : string) : list Path := default [] (d !! K).

(** The final mapping seen as a set of (keyword, path) pairs. *)
Definition has_pair (d : dict) (K : string) (p : Path) : Prop :=
  exists paths, d !! K = Some paths /\ In p paths.

(** No key is bound to the empty list. *)
Definition no_empty_entry (d : dict) : Prop :=
  forall K, d !! K <> Some [].

(** What one file adds under key [K]: its path, once per occurrence of [K]
    in the keyword sequence, when it can be read and [K] occurs in it. *)
Definition file_hits (rt : platform) (keywords : list string)
    (case_insensitive : bool) (K : string) (fp : Path) : list Path :=
  match fs_read_text rt fp with
  | Text content =>
      flat_map (fun kw =>
                  if bool_decide (kw = K) && matches rt case_insensitive kw content
                  then [fp] else []) keywords
  | _ => []
  end.

Definition hits (rt : platform) (files : list Path) (keywords : list string)
    (case_insensitive : bool) (K : string) : list Path :=
  flat_map (file_hits rt keywords case_insensitive K) files.

(** The extension filter of the collection loop, per path. *)
Definition kept (rt : platform) (allow_extensions : option (list string))
    (p : Path) : bool :=
  fs_is_file rt p &&
  match allow_extensions with
  | Some (e :: es) => bool_decide (str_lower rt (suffix p) ∈ e :: es)
  | _ => true
  end.

(** The [k]-th block of [size] consecutive items of [s]. *)
Definition carve {A} (size : nat) (s : list A) (k : nat) : list A :=
  take size (drop (k * size) s).

(** The same file system and case mapping on another machine: another CPU
    count and another arrival order at the queue. *)
Definition on_machine (rt : platform) (cpus : option Z)
    (q : list dict -> list dict) : platform :=
  {| str_lower := str_lower rt;
     fs_rglob := fs_rglob rt;
     fs_is_file := fs_is_file rt;
     fs_read_text := fs_read_text rt;
     os_cpu_count := cpus;
     queue_order := q |}.

(** ** Loading the keywords *)

(** [c.isspace()] for a code point below 256: what [str.strip()] removes. *)
Definition is_space (c : ascii) : bool :=
  let n := nat_of_ascii c in
  ((9 <=? n) && (n <=? 13) || (28 <=? n) && (n <=? 32)
   || (n =? 133) || (n =? 160))%nat.

Definition newline : ascii := "010"%char.

Fixpoint lstrip (s : string) : string :=
  match s with
  | EmptyString => EmptyString
  | String c rest => if is_space c then lstrip rest else s
  end.

Fixpoint rstrip (s : string) : string :=
  match s with
  | EmptyString => EmptyString
  | String c rest =>
      match rstrip rest with
      | EmptyString => if is_space c then EmptyString else String c EmptyString
      | kept_rest => String c kept_rest
      end
  end.

(** [s.strip()] *)
Definition strip (s : string) : string := rstrip (lstrip s).

(** Iterating over a text file: the lines, each with its newline except
    possibly the last. *)
Fixpoint lines (text : string) : list string :=
  match text with
  | EmptyString => []
  | String c rest =>
      if Ascii.eqb c newline then String c EmptyString :: lines rest
      else match lines rest with
           | [] => [String c EmptyString]
           | line :: more => String c line :: more
           end
  end.

Definition nonempty_str (s : string) : bool :=
  match s with EmptyString => false | String _ _ => true end.

(** [[line.strip() for line in f if line.strip()]] on the text of the file. *)
Definition keywords_of_text (text : string) : list string :=
  map strip (List.filter (fun line => nonempty_str (strip line)) (lines text)).

(** What leaves [load_keywords] or the main block. *)
Inductive outcome (A : Type) :=
  | Done (a : A)
  | Uncaught_OSError (exc : string)
  | Uncaught_UnicodeError (exc : string)
  | Uncaught (e : exception).
Arguments Done {A} a.
Arguments Uncaught_OSError {A} exc.
Arguments Uncaught_UnicodeError {A} exc.
Arguments Uncaught {A} e.

(** [load_keywords]: nothing is caught, a failure to open or decode leaves
    the function. *)
Definition load_keywords (rt : platform) (path : string) : outcome (list string) :=
  match fs_read_text rt path with
  | Text text => Done (keywords_of_text text)
  | OSError exc => Uncaught_OSError exc
  | UnicodeError exc => Uncaught_UnicodeError exc
  end.

(** The main block of [search_multiprocessing.py], up to the mapping it
    prints. *)
Definition main_multiprocessing (rt : platform) : outcome dict :=
  match load_keywords rt "keywords.txt" with
  | Done keywords =>
      match multiprocessing_search rt "sample_files" keywords (Some [".txt"]) true with
      | Returns result => Done result
      | Raises e => Uncaught e
      end
  | Uncaught_OSError exc => Uncaught_OSError exc
  | Uncaught_UnicodeError exc => Uncaught_UnicodeError exc
  | Uncaught e => Uncaught e
  end.

(** ** The threaded search *)

(** One append under the lock: [out_map[kw].append(str(file_path))]. *)
Definition append_event (out_map : dict) (ev : string * Path) : dict :=
  append_path out_map (fst ev) (snd ev).

(** The appends one call of [_scan_file] performs, in order. *)
Definition scan_events (rt : platform) (file_path : Path)
    (keywords : list string) (case_insensitive : bool) : list (string * Path) :=
  match _read_text_safely rt file_path with
  | (None, _) => []
  | (Some content, _) =>
      map (fun kw => (kw, file_path))
          (List.filter (fun kw => matches rt case_insensitive kw content) keywords)
  end.

(** The appends of one thread: the comprehension
    [[_scan_file(fp, ...) for fp in batch]] over the batch it iterates. *)
Definition thread_events (rt : platform) (batch : list Path)
    (keywords : list string) (case_insensitive : bool) : list (string * Path) :=
  flat_map (fun fp => scan_events rt fp keywords case_insensitive) batch.

(** How the threads run.  [late] gives, per started thread, how many
    iterations the starting loop has advanced when the thread body evaluates
    the loop variable [batch] (the lambda captures the variable, not its
    value); [turns] names the thread that performs the next append. *)
Record schedule := {
  late : list nat;
  turns : list nat
}.

(** The merge of the threads' appends that [turns] selects; a turn of a
    thread with nothing left is skipped, what remains at the end runs in
    thread order. *)
Fixpoint interleave {E} (turns : list nat) (traces : list (list E)) : list E :=
  match turns with
  | [] => concat traces
  | t :: turns' =>
      match traces !! t with
      | Some (ev :: rest) => ev :: interleave turns' (<[t := rest]> traces)
      | _ => interleave turns' traces
      end
  end.

(** The chunk indices for which a thread is started: [if not batch: continue]. *)
Definition started_at (chunks : list (list Path)) : list nat :=
  List.filter (fun c => negb (bool_decide (nth c chunks [] = [])))
              (seq 0 (length chunks)).

(** The batch each started thread iterates: the value of [batch] when the
    thread reads it, which is the chunk it was started for or a later one,
    at most the last. *)
Definition thread_reads (late : list nat) (chunks : list (list Path))
    : list (list Path) :=
  imap (fun k c => nth (Nat.min (c + nth k late 0%nat) (length chunks - 1)) chunks [])
       (started_at chunks).

(** [threaded_search] under a schedule: the shared map after all threads
    were joined. *)
Definition threaded_search (rt : platform) (sch : schedule) (source_dir : string)
    (keywords : list string) (allow_extensions : option (list string))
    (case_insensitive : bool) : py_result dict :=
  let files := collect_files rt source_dir allow_extensions in
  if bool_decide (files = []) then Returns ∅
  else
    match _chunks files (num_threads rt files) with
    | Raises e => Raises e
    | Returns chunks =>
        let traces :=
          map (fun batch => thread_events rt batch keywords case_insensitive)
              (thread_reads (late sch) chunks) in
        Returns (foldl append_event ∅ (interleave (turns sch) traces))
    end.

(** Every thread reads [batch] before the loop advances. *)
Definition prompt (sch : schedule) : Prop :=
  forall k, nth k (late sch) 0%nat = 0%nat.

(** ** Further specification-side notions *)

(** File [fp] can be read and keyword [K] occurs in it. *)
Definition file_matches (rt : platform) (case_insensitive : bool) (K : string)
    (fp : Path) : bool :=
  match fs_read_text rt fp with
  | Text content => matches rt case_insensitive K content
  | _ => false
  end.

(** The lines a worker prints for one file. *)
Definition read_warnings (rt : platform) (fp : Path) : list string :=
  match fs_read_text rt fp with
  | Text _ => []
  | OSError exc | UnicodeError exc => [warning fp exc]
  end.

(** What an append event adds under key [K]. *)
Definition under (K : string) (ev : string * Path) : list Path :=
  if bool_decide (fst ev = K) then [snd ev] else [].

(** A text file holding the given lines. *)
Definition unlines (ls : list string) : string :=
  foldr (fun l text => l +:+ String newline text) EmptyString ls.

(** A platform for the main block: a keywords file with padding, a blank
    line and a repeated keyword, and a directory of three files. *)
Definition main_read (p : Path) : read_outcome :=
  if String.eqb p "keywords.txt"
  then Text (unlines ["alpha"; "  Beta "; "   "; "alpha"])
  else if String.eqb p "clean.txt"
  then Text (unlines ["alpha"; "two words"; "alpha"])
  else if String.eqb p "sample_files/a.txt" then Text "alpha beta"
  else if String.eqb p "sample_files/b.TXT" then Text "BETA gamma"
  else if String.eqb p "sample_files/c.md" then Text "alpha"
  else OSError "No such file or directory".

Definition main_demo : platform := {|
  str_lower := ascii_lower;
  fs_rglob := fun _ =>
    ["sample_files/a.txt"; "sample_files/b.TXT"; "sample_files/c.md"];
  fs_is_file := fun _ => true;
  fs_read_text := main_read;
  os_cpu_count := Some 4;
  queue_order := fun puts => puts
|}.

(** ** Examples *)

Example chunks_5_2 : _chunks [1; 2; 3; 4; 5] 2 = Returns [[1; 2; 3]; [4; 5]].
Proof. reflexivity. Qed.

Example chunks_zero_workers : _chunks [1; 2; 3] 0 = Returns [[1; 2; 3]].
Proof. reflexivity. Qed.

Example suffix_ex :
  suffix "dir/a.b.TXT" = ".TXT" /\ suffix "dir/.bashrc" = EmptyString
  /\ suffix "a." = EmptyString /\ suffix "x.d/readme" = EmptyString.
Proof. repeat split; reflexivity. Qed.

(** The scenario of the specification. *)
Example scenario :
  multiprocessing_search (demo (Some 2)) "root" ["alpha"; "beta"; "delta"]
    (Some [".txt"]) false
  = Returns (<["alpha" := ["root/a.txt"]]>
               (<["beta" := ["root/a.txt"; "root/b.txt"]]> ∅)).
Proof. vm_compute. reflexivity. Qed.

(** ** Strings *)

Lemma prefix_true_iff (kw content : string) :
  String.prefix kw content = true <-> exists post, content = kw +:+ post.
Proof.
  revert content. induction kw as [|a kw IH]; intros [|b content]; simpl.
  - split; [intros _; exists EmptyString; reflexivity | reflexivity].
  - split; [intros _; exists (String b content); reflexivity | reflexivity].
  - split; [discriminate | intros [post H]; discriminate].
  - destruct (ascii_dec a b) as [->|Hne].
    + rewrite IH. split; intros [post H]; exists post.
      * rewrite H. reflexivity.
      * injection H as H. exact H.
    + split; [discriminate | intros [post H]; injection H as H1 H2; congruence].
Qed.

Lemma contains_true_iff (kw content : string) :
  contains kw content = true <-> substring_of kw content.
Proof.
  unfold substring_of. induction content as [|c content IH]; cbn [contains].
  - rewrite orb_false_r, prefix_true_iff. split.
    + intros [post H]. exists EmptyString, post. exact H.
    + intros [[|a pre] [post H]]; [exists post; exact H | discriminate].
  - rewrite orb_true_iff, prefix_true_iff, IH. split.
    + intros [[post H] | [pre [post H]]].
      * exists EmptyString, post. exact H.
      * exists (String c pre), post. rewrite H. reflexivity.
    + intros [[|a pre] [post H]].
      * left. exists post. exact H.
      * right. exists pre, post. injection H as _ H. exact H.
Qed.

Lemma matches_true_iff rt ci kw content :
  matches rt ci kw content = true <-> keyword_in rt ci kw content.
Proof. unfold matches, keyword_in. destruct ci; apply contains_true_iff. Qed.

(** ** Partitioner *)

Section Chunks.

Context {A : Type}.
Implicit Types (s : list A) (n : Z).

Lemma len_pos s : s <> [] -> 0 < len s.
Proof. destruct s; [congruence | unfold len; simpl; lia]. Qed.

(** Chunk size and chunk count as natural numbers, with the bounds every
    later lemma needs. *)
Lemma chunk_arith (L n : Z) :
  0 < L -> 0 < n ->
  let size := (L + n - 1) / n in
  let cnt := (L - 1) / size + 1 in
  0 < size /\ (size - 1) * n < L <= size * n /\
  0 < cnt <= n /\ (cnt - 1) * size < L <= cnt * size.
Proof.
  intros HL Hn size cnt.
  assert (Hs : 0 < size).
  { apply Z.div_str_pos. lia. }
  pose proof (Z.div_mod (L + n - 1) n ltac:(lia)) as E1.
  pose proof (Z.mod_pos_bound (L + n - 1) n Hn) as B1.
  fold size in E1.
  pose proof (Z.div_mod (L - 1) size ltac:(lia)) as E2.
  pose proof (Z.mod_pos_bound (L - 1) size Hs) as B2.
  assert (Hq : 0 <= (L - 1) / size) by (apply Z.div_pos; lia).
  assert (Hc : (L - 1) / size < n).
  { apply Z.div_lt_upper_bound; nia. }
  subst cnt. repeat split; nia.
Qed.

Lemma py_slice_from s (i d : Z) :
  0 <= i -> 0 <= d ->
  py_slice s i (i + d) = take (Z.to_nat d) (drop (Z.to_nat i) s).
Proof.
  intros Hi Hd. unfold py_slice, slice_bound, len.
  destruct (Z.ltb_spec i 0) as [?|_]; [lia|].
  destruct (Z.ltb_spec (i + d) 0) as [?|_]; [lia|].
  destruct (Z.le_gt_cases (Z.of_nat (length s)) i) as [Hge|Hlt].
  - rewrite !drop_ge by lia. rewrite !take_nil. reflexivity.
  - replace (Z.to_nat (Z.min i (Z.of_nat (length s)))) with (Z.to_nat i) by lia.
    destruct (Z.le_gt_cases (i + d) (Z.of_nat (length s))) as [Hin|Hout].
    + f_equal. lia.
    + rewrite !take_ge; [reflexivity | |]; rewrite length_drop; lia.
Qed.

Lemma concat_carve (size : nat) s (k : nat) :
  concat (map (carve size s) (seq 0 k)) = take (k * size) s.
Proof.
  induction k as [|k IH]; [reflexivity|].
  rewrite seq_S, map_app, concat_app, IH. simpl.
  rewrite app_nil_r. unfold carve. rewrite take_take_drop.
  f_equal. lia.
Qed.

(** On a non-empty sequence with a positive count the partition returns the
    blocks of [size] items, [cnt] of them. *)
Lemma chunks_carve s n :
  s <> [] -> 0 < n ->
  _chunks s n =
  Returns (map (carve (Z.to_nat ((len s + n - 1) / n)) s)
               (seq 0 (Z.to_nat ((len s - 1) / ((len s + n - 1) / n) + 1)))).
Proof.
  intros Hs Hn. pose proof (len_pos s Hs) as HL.
  destruct (chunk_arith (len s) n HL Hn) as (Hsize & _ & _ & _).
  unfold _chunks, py_range, range_length.
  destruct (Z.leb_spec n 0) as [?|_]; [lia|].
  destruct (Z.eqb_spec ((len s + n - 1) / n) 0) as [?|_]; [lia|].
  destruct (Z.ltb_spec 0 ((len s + n - 1) / n)) as [_|?]; [|lia].
  destruct (Z.ltb_spec 0 (len s)) as [_|?]; [|lia].
  f_equal. rewrite map_map. rewrite Z.sub_0_r.
  apply map_ext. intros k. rewrite py_slice_from by lia.
  unfold carve. do 2 f_equal. lia.
Qed.

(** Whenever the partition returns, its chunks concatenate to the input;
    it returns unless the input is empty and the count positive. *)
Lemma chunks_concat s n :
  s <> [] \/ n <= 0 ->
  exists chunks, _chunks s n = Returns chunks /\ concat chunks = s.
Proof.
  intros H. destruct (Z.le_gt_cases n 0) as [Hn|Hn].
  - exists [s]. unfold _chunks. destruct (Z.leb_spec n 0); [|lia].
    split; [reflexivity | simpl; apply app_nil_r].
  - destruct H as [Hs|?]; [|lia]. eexists. split; [apply chunks_carve; assumption|].
    rewrite concat_carve. apply take_ge.
    pose proof (len_pos s Hs) as HL.
    destruct (chunk_arith (len s) n HL Hn) as (Hsize & _ & Hcnt & Hcover).
    unfold len in *. nia.
Qed.

End Chunks.

(** ** Scanner, workers and aggregation *)

Section Results.

Context (rt : platform).
Implicit Types (d out local aggregated partial : dict) (K kw : string)
  (fp : Path) (files : list Path) (keywords : list string).

Lemma get_empty K : get ∅ K = [].
Proof. unfold get. rewrite lookup_empty. reflexivity. Qed.

Lemma no_empty_entry_empty : no_empty_entry ∅.
Proof. intros K. rewrite lookup_empty. discriminate. Qed.

(** With no empty entry, a key is absent exactly when [get] is empty. *)
Lemma lookup_None_get d K : no_empty_entry d -> d !! K = None <-> get d K = [].
Proof.
  intros Hd. unfold get. specialize (Hd K).
  destruct (d !! K) as [[|p l]|]; simpl; split; congruence.
Qed.

Lemma has_pair_get d K p : has_pair d K p <-> In p (get d K).
Proof.
  unfold has_pair, get. destruct (d !! K) as [l|]; simpl.
  - split; [intros (paths & [= <-] & H); exact H | intros H; eauto].
  - split; [intros (paths & [=] & _) | intros []].
Qed.

Lemma get_append_path d kw fp K :
  get (append_path d kw fp) K = get d K ++ if bool_decide (kw = K) then [fp] else [].
Proof.
  unfold get, append_path. case_bool_decide as E.
  - subst. rewrite lookup_insert_eq. reflexivity.
  - rewrite lookup_insert_ne by exact E. rewrite app_nil_r. reflexivity.
Qed.

Lemma no_empty_entry_append_path d kw fp :
  no_empty_entry d -> no_empty_entry (append_path d kw fp).
Proof.
  intros Hd K. unfold append_path. destruct (decide (kw = K)) as [->|E].
  - rewrite lookup_insert_eq. intros [= H]. destruct (default [] (d !! K)); discriminate.
  - rewrite lookup_insert_ne by exact E. apply Hd.
Qed.

(** Both keyword loops are one fold over [matches]. *)
Lemma scan_content_fold content fp keywords ci out :
  scan_content rt content fp keywords ci out =
  foldl (fun out kw => if matches rt ci kw content then append_path out kw fp else out)
        out keywords.
Proof. unfold scan_content, matches. destruct ci; reflexivity. Qed.

Lemma get_scan_content content fp keywords ci out K :
  get (scan_content rt content fp keywords ci out) K =
  get out K ++
  flat_map (fun kw => if bool_decide (kw = K) && matches rt ci kw content
                      then [fp] else []) keywords.
Proof.
  rewrite scan_content_fold. revert out.
  induction keywords as [|kw keywords IH]; intros out; simpl.
  - rewrite app_nil_r. reflexivity.
  - rewrite IH. destruct (matches rt ci kw content).
    + rewrite get_append_path, <- app_assoc. rewrite andb_true_r.
      destruct (bool_decide (kw = K)); reflexivity.
    + rewrite andb_false_r. reflexivity.
Qed.

Lemma no_empty_entry_scan_content content fp keywords ci out :
  no_empty_entry out -> no_empty_entry (scan_content rt content fp keywords ci out).
Proof.
  rewrite scan_content_fold. revert out.
  induction keywords as [|kw keywords IH]; intros out Hout; simpl; [exact Hout|].
  apply IH. destruct (matches rt ci kw content); [|exact Hout].
  apply no_empty_entry_append_path, Hout.
Qed.

Lemma get_worker_step keywords ci st fp K :
  get (fst (worker_step rt keywords ci st fp)) K =
  get (fst st) K ++ file_hits rt keywords ci K fp.
Proof.
  destruct st as [local printed]. unfold worker_step, _read_text_safely, file_hits.
  destruct (fs_read_text rt fp); simpl.
  - apply get_scan_content.
  - rewrite app_nil_r. reflexivity.
  - rewrite app_nil_r. reflexivity.
Qed.

Lemma no_empty_entry_worker_step keywords ci st fp :
  no_empty_entry (fst st) -> no_empty_entry (fst (worker_step rt keywords ci st fp)).
Proof.
  destruct st as [local printed]. unfold worker_step, _read_text_safely.
  destruct (fs_read_text rt fp); simpl; intros H; try exact H.
  apply no_empty_entry_scan_content, H.
Qed.

Lemma get_worker_from files keywords ci st K :
  get (fst (foldl (worker_step rt keywords ci) st files)) K =
  get (fst st) K ++ hits rt files keywords ci K.
Proof.
  revert st. induction files as [|fp files IH]; intros st; simpl.
  - rewrite app_nil_r. reflexivity.
  - rewrite IH, get_worker_step, <- app_assoc. reflexivity.
Qed.

(** The dict a worker puts on the queue lists, under each key, the hits of
    its batch in batch order. *)
Lemma get_worker files keywords ci K :
  get (fst (_worker_process rt files keywords ci)) K = hits rt files keywords ci K.
Proof. unfold _worker_process. rewrite get_worker_from. simpl. rewrite get_empty. reflexivity. Qed.

Lemma no_empty_entry_worker files keywords ci :
  no_empty_entry (fst (_worker_process rt files keywords ci)).
Proof.
  unfold _worker_process.
  assert (G : forall st, no_empty_entry (fst st) ->
            no_empty_entry (fst (foldl (worker_step rt keywords ci) st files))).
  { induction files as [|fp files IH]; intros st Hst; simpl; [exact Hst|].
    apply IH, no_empty_entry_worker_step, Hst. }
  apply G, no_empty_entry_empty.
Qed.

(** Merging one partial result extends every list by the partial's list. *)
Lemma extend_with_spec aggregated partial :
  forall K,
    extend_with aggregated partial !! K =
    match partial !! K with
    | Some paths => Some (default [] (aggregated !! K) ++ paths)
    | None => aggregated !! K
    end.
Proof.
  unfold extend_with.
  apply (map_fold_weak_ind
           (fun (r : dict) (m : dict) =>
              forall K, r !! K = match m !! K with
                                 | Some paths => Some (default [] (aggregated !! K) ++ paths)
                                 | None => aggregated !! K
                                 end)).
  - intros K. rewrite lookup_empty. reflexivity.
  - intros kw paths m r Hfresh IH K.
    destruct (decide (kw = K)) as [->|E].
    + rewrite !lookup_insert_eq. rewrite IH, Hfresh. reflexivity.
    + rewrite !lookup_insert_ne by exact E. apply IH.
Qed.

Lemma get_extend_with aggregated partial K :
  get (extend_with aggregated partial) K = get aggregated K ++ get partial K.
Proof.
  unfold get. rewrite extend_with_spec.
  destruct (partial !! K); simpl; [reflexivity | rewrite app_nil_r; reflexivity].
Qed.

Lemma no_empty_entry_extend_with aggregated partial :
  no_empty_entry aggregated -> no_empty_entry partial ->
  no_empty_entry (extend_with aggregated partial).
Proof.
  intros Ha Hp K. rewrite extend_with_spec. specialize (Hp K).
  destruct (partial !! K) as [paths|]; [|apply Ha].
  intros [= H]. apply app_eq_nil in H as [_ ->]. congruence.
Qed.

Lemma get_aggregate_from (partials : list dict) aggregated K :
  get (foldl extend_with aggregated partials) K =
  get aggregated K ++ flat_map (fun partial => get partial K) partials.
Proof.
  revert aggregated. induction partials as [|partial partials IH]; intros aggregated; simpl.
  - rewrite app_nil_r. reflexivity.
  - rewrite IH, get_extend_with, <- app_assoc. reflexivity.
Qed.

Lemma get_aggregate (partials : list dict) K :
  get (aggregate partials) K = flat_map (fun partial => get partial K) partials.
Proof. unfold aggregate. rewrite get_aggregate_from, get_empty. reflexivity. Qed.

Lemma no_empty_entry_aggregate (partials : list dict) :
  Forall no_empty_entry partials -> no_empty_entry (aggregate partials).
Proof.
  unfold aggregate. generalize (no_empty_entry_empty).
  generalize (∅ : dict) as aggregated.
  induction partials as [|partial partials IH]; intros aggregated Ha Hp; simpl; [exact Ha|].
  inversion Hp; subst. apply IH; [|assumption].
  apply no_empty_entry_extend_with; assumption.
Qed.

Lemma flat_map_Permutation {X Y} (f : X -> list Y) (l l' : list X) :
  Permutation l l' -> Permutation (flat_map f l) (flat_map f l').
Proof.
  induction 1 as [|x l l' _ IH|x y l|l l' l'' _ IH1 _ IH2]; simpl.
  - constructor.
  - apply Permutation_app_head, IH.
  - rewrite !app_assoc. apply Permutation_app_tail, Permutation_app_comm.
  - etransitivity; eassumption.
Qed.

Lemma hits_app files files' keywords ci K :
  hits rt (files ++ files') keywords ci K =
  hits rt files keywords ci K ++ hits rt files' keywords ci K.
Proof. unfold hits. apply flat_map_app. Qed.

Lemma hits_concat (chunks : list (list Path)) keywords ci K :
  flat_map (fun batch => hits rt batch keywords ci K) chunks =
  hits rt (concat chunks) keywords ci K.
Proof.
  induction chunks as [|batch chunks IH]; simpl; [reflexivity|].
  rewrite hits_app, IH. reflexivity.
Qed.

(** Skipping the empty batches loses no file. *)
Lemma concat_started (chunks : list (list Path)) :
  concat (started chunks) = concat chunks.
Proof.
  unfold started. induction chunks as [|batch chunks IH]; simpl; [reflexivity|].
  case_bool_decide as E; simpl; rewrite IH; [subst|]; reflexivity.
Qed.

(** The merged result of any list of batches, whatever the arrival order:
    under each key a permutation of the hits of all the files. *)
Lemma merged_batches (batches : list (list Path)) keywords ci :
  queue_delivers rt ->
  let r := aggregate
             (queue_order rt
                (map (fun batch => fst (_worker_process rt batch keywords ci)) batches)) in
  no_empty_entry r /\
  forall K, Permutation (get r K) (hits rt (concat batches) keywords ci K).
Proof.
  intros Hq r. pose proof (Hq (map (fun batch => fst (_worker_process rt batch keywords ci))
                                 batches)) as Hperm.
  split.
  - apply no_empty_entry_aggregate.
    apply List.Forall_forall. intros partial Hin.
    apply Permutation_sym in Hperm.
    apply (Permutation_in _ Hperm), in_map_iff in Hin as (batch & <- & _).
    apply no_empty_entry_worker.
  - intros K. subst r. rewrite get_aggregate, <- hits_concat.
    etransitivity.
    + apply flat_map_Permutation, Permutation_sym, Hperm.
    + rewrite flat_map_concat_map, map_map, <- flat_map_concat_map.
      erewrite flat_map_ext; [reflexivity|]. intros batch. apply get_worker.
Qed.

Lemma flat_map_nil_for {X Y} (f : X -> list Y) (l : list X) :
  (forall x, In x l -> f x = []) -> flat_map f l = [].
Proof.
  induction l as [|x l IH]; intros H; simpl; [reflexivity|].
  rewrite (H x), IH; [reflexivity | | left; reflexivity].
  intros y Hy. apply H. right. exact Hy.
Qed.

Lemma in_file_hits keywords ci K fp p :
  In p (file_hits rt keywords ci K fp) <->
  p = fp /\ In K keywords /\
  exists content, fs_read_text rt fp = Text content /\ keyword_in rt ci K content.
Proof.
  unfold file_hits. destruct (fs_read_text rt fp) as [content|exc|exc].
  - rewrite in_flat_map. split.
    + intros (kw & Hkw & Hp). case_bool_decide as E; simpl in Hp; [|destruct Hp].
      subst kw. destruct (matches rt ci K content) eqn:M; [|destruct Hp].
      destruct Hp as [<-|[]]. split; [reflexivity|]. split; [exact Hkw|].
      exists content. split; [reflexivity|]. apply matches_true_iff, M.
    + intros (-> & Hkw & c & [= <-] & Hm). exists K. split; [exact Hkw|].
      rewrite bool_decide_eq_true_2 by reflexivity.
      apply matches_true_iff in Hm. rewrite Hm. left. reflexivity.
  - split; [intros [] | intros (_ & _ & c & [=] & _)].
  - split; [intros [] | intros (_ & _ & c & [=] & _)].
Qed.

(** Membership in the hits: the path is one of the files, the key one of the
    keywords, the file can be read and the key occurs in its text. *)
Lemma in_hits files keywords ci K p :
  In p (hits rt files keywords ci K) <->
  In p files /\ In K keywords /\
  exists content, fs_read_text rt p = Text content /\ keyword_in rt ci K content.
Proof.
  unfold hits. rewrite in_flat_map. split.
  - intros (fp & Hfp & Hp). apply in_file_hits in Hp as (-> & Hrest).
    split; assumption.
  - intros (Hp & Hrest). exists p. split; [exact Hp|].
    apply in_file_hits. split; [reflexivity | exact Hrest].
Qed.

(** With pairwise distinct keywords a file is listed at most once. *)
Lemma file_hits_short keywords ci K fp :
  NoDup keywords ->
  file_hits rt keywords ci K fp = [] \/ file_hits rt keywords ci K fp = [fp].
Proof.
  unfold file_hits. destruct (fs_read_text rt fp) as [content|exc|exc]; auto.
  induction 1 as [|kw keywords Hnotin Hnd IH]; simpl; [left; reflexivity|].
  case_bool_decide as E; simpl; [|exact IH].
  subst kw. rewrite flat_map_nil_for.
  - rewrite app_nil_r. destruct (matches rt ci K content); auto.
  - intros kw Hkw. case_bool_decide as E; [|reflexivity].
    subst kw. exfalso. apply Hnotin, list_elem_of_In, Hkw.
Qed.

Lemma NoDup_hits files keywords ci K :
  NoDup keywords -> NoDup files -> NoDup (hits rt files keywords ci K).
Proof.
  intros Hk. unfold hits. induction 1 as [|fp files Hnotin Hnd IH]; simpl.
  - constructor.
  - destruct (file_hits_short keywords ci K fp Hk) as [-> | ->]; simpl; [exact IH|].
    constructor; [|exact IH].
    intros Hin. apply Hnotin. apply list_elem_of_In in Hin.
    apply list_elem_of_In. apply (in_hits files keywords ci K fp). exact Hin.
Qed.

(** The collection loop keeps, in listing order, the paths [kept] accepts. *)
Lemma collect_files_filter source_dir allow_extensions :
  collect_files rt source_dir allow_extensions =
  List.filter (kept rt allow_extensions) (fs_rglob rt source_dir).
Proof.
  unfold collect_files.
  set (step := fun (files : list Path) (p : Path) => if fs_is_file rt p then _ else _).
  assert (G : forall l acc, foldl step acc l = acc ++ List.filter (kept rt allow_extensions) l).
  { induction l as [|p l IH]; intros acc; simpl.
    - rewrite app_nil_r. reflexivity.
    - rewrite IH. unfold step.
      assert (Hk : kept rt allow_extensions p =
                   fs_is_file rt p &&
                   match allow_extensions with
                   | Some (e :: es) => bool_decide (str_lower rt (suffix p) ∈ e :: es)
                   | _ => true
                   end) by reflexivity.
      rewrite Hk. clear Hk.
      destruct (fs_is_file rt p); simpl; [|reflexivity].
      destruct allow_extensions as [[|e es]|]; simpl;
        try (rewrite <- app_assoc; reflexivity).
      destruct (bool_decide _); simpl; [rewrite <- app_assoc|]; reflexivity. }
  apply (G _ []).
Qed.

(** The pipeline returns, and its result lists under every key a permutation
    of the hits of the whole file list. *)
Lemma pipeline_spec files keywords ci n :
  queue_delivers rt -> files <> [] \/ n <= 0 ->
  exists result,
    pipeline rt files keywords ci n = Returns result /\
    no_empty_entry result /\
    forall K, Permutation (get result K) (hits rt files keywords ci K).
Proof.
  intros Hq Hfn. destruct (chunks_concat files n Hfn) as (chunks & Hc & Hcat).
  unfold pipeline. rewrite Hc. eexists. split; [reflexivity|].
  destruct (merged_batches (started chunks) keywords ci Hq) as [Hne Hperm].
  split; [exact Hne|]. intros K. specialize (Hperm K).
  rewrite concat_started, Hcat in Hperm. exact Hperm.
Qed.

Lemma search_spec source_dir keywords allow_extensions ci :
  queue_delivers rt ->
  exists result,
    multiprocessing_search rt source_dir keywords allow_extensions ci = Returns result /\
    no_empty_entry result /\
    forall K, Permutation (get result K)
                (hits rt (collect_files rt source_dir allow_extensions) keywords ci K).
Proof.
  intros Hq. unfold multiprocessing_search. case_bool_decide as E.
  - exists ∅. split; [reflexivity|]. split; [apply no_empty_entry_empty|].
    intros K. rewrite E, get_empty. constructor.
  - apply pipeline_spec; [exact Hq | left; exact E].
Qed.

End Results.

(** ** Properties of the partition *)

(** C4 as stated fails: on the empty sequence with three workers the
    partition does not return the empty chunk sequence. *)
Lemma chunks_empty_not_returned : _chunks (@nil Path) 3 <> Returns [].
Proof. vm_compute. discriminate. Qed.

(** C4, amended.  For every positive [n], [_chunks] on the empty sequence
    raises [ValueError]: the chunk size is 0 and is the step of [range].
    Both orchestrators return before partitioning when no file was
    collected, so the partition is never applied to an empty sequence. *)
Theorem chunks_empty_raises (rt : platform) (n : Z) source_dir keywords
    allow_extensions ci :
  0 < n ->
  collect_files rt source_dir allow_extensions = [] ->
  _chunks (@nil Path) n = Raises (ValueError "range() arg 3 must not be zero") /\
  multiprocessing_search rt source_dir keywords allow_extensions ci = Returns ∅ /\
  threaded_batches rt source_dir allow_extensions = Returns [].
Proof.
  intros Hn Hfiles. split; [|split].
  - unfold _chunks. destruct (Z.leb_spec n 0) as [?|_]; [lia|].
    change (len (@nil Path)) with 0.
    rewrite Z.div_small by lia. reflexivity.
  - unfold multiprocessing_search. rewrite Hfiles. reflexivity.
  - unfold threaded_batches. rewrite Hfiles. reflexivity.
Qed.

Lemma chunks_empty_raises_witness :
  _chunks (@nil Path) 3 = Raises (ValueError "range() arg 3 must not be zero") /\
  multiprocessing_search (demo (Some 2)) "root" ["alpha"] (Some [".rst"]) false
    = Returns ∅ /\
  threaded_batches (demo (Some 2)) "root" (Some [".rst"]) = Returns [].
Proof.
  apply (chunks_empty_raises (demo (Some 2)) 3 "root" ["alpha"] (Some [".rst"]) false).
  - lia.
  - vm_compute. reflexivity.
Defined.

(** C5.  On a non-empty sequence with a positive [n] the partition returns;
    the chunk size is the ceiling of [len(seq) / n]; the [i]-th chunk is the
    block of [size] consecutive items starting at [i * size]; every chunk but
    the last has exactly [size] items, the last between 1 and [size]; and the
    chunks concatenate to the input. *)
Theorem chunks_partition {A} (s : list A) (n : Z) :
  s <> [] -> 0 < n ->
  let size := (len s + n - 1) / n in
  (size - 1) * n < len s <= size * n /\
  exists chunks,
    _chunks s n = Returns chunks /\
    concat chunks = s /\
    forall (i : nat) chunk,
      chunks !! i = Some chunk ->
      chunk = take (Z.to_nat size) (drop (i * Z.to_nat size) s) /\
      (0 < length chunk <= Z.to_nat size)%nat /\
      (S i < length chunks -> length chunk = Z.to_nat size)%nat.
Proof.
  intros Hs Hn size. pose proof (len_pos s Hs) as HL.
  destruct (chunk_arith (len s) n HL Hn) as (Hsize & Hceil & Hcnt & Hcover).
  fold size in Hsize, Hceil, Hcnt, Hcover.
  split; [exact Hceil|].
  destruct (chunks_concat s n (or_introl Hs)) as (chunks & Hc & Hcat).
  exists chunks. split; [exact Hc|]. split; [exact Hcat|].
  rewrite (chunks_carve s n Hs Hn) in Hc. injection Hc as <-. fold size.
  intros i chunk Hi.
  change (map ?f ?l) with (f <$> l) in *.
  rewrite list_lookup_fmap in Hi.
  destruct (seq 0 (Z.to_nat ((len s - 1) / size + 1)) !! i) as [k|] eqn:Hk;
    [|discriminate].
  apply lookup_seq in Hk as [-> Hlt]. simpl in Hi. injection Hi as <-.
  split; [reflexivity|].
  rewrite length_fmap, length_seq. unfold carve.
  rewrite length_take, length_drop. unfold len in *. split; [nia|].
  intros Hnext. nia.
Qed.

Lemma chunks_partition_witness :
  exists chunks,
    _chunks ["a"; "b"; "c"; "d"; "e"] 2 = Returns chunks /\
    concat chunks = ["a"; "b"; "c"; "d"; "e"] /\
    chunks !! 1%nat = Some ["d"; "e"].
Proof.
  destruct (chunks_partition ["a"; "b"; "c"; "d"; "e"] 2) as (_ & chunks & Hc & Hcat & _).
  - discriminate.
  - lia.
  - exists chunks. split; [exact Hc|]. split; [exact Hcat|].
    vm_compute in Hc. injection Hc as <-. reflexivity.
Defined.

(** C10.  On a non-empty sequence with [n >= 1] the partition returns at
    most [n] chunks, none of them empty, so skipping the empty batches at
    dispatch removes nothing; and the counts both orchestrators pass are at
    least 1. *)
Theorem chunks_nonempty (rt : platform) (files : list Path) (n : Z) :
  files <> [] -> 1 <= n ->
  (exists chunks,
     _chunks files n = Returns chunks /\
     Forall (fun batch => batch <> []) chunks /\
     len chunks <= n /\
     started chunks = chunks) /\
  1 <= num_procs rt files /\ 1 <= num_threads rt files.
Proof.
  intros Hs Hn. split; [|unfold num_procs, num_threads; lia].
  pose proof (len_pos files Hs) as HL.
  destruct (chunk_arith (len files) n HL ltac:(lia)) as (Hsize & _ & Hcnt & Hcover).
  eexists. split; [apply chunks_carve; [exact Hs | lia]|].
  set (size := (len files + n - 1) / n) in *.
  set (cnt := (len files - 1) / size + 1) in *.
  assert (Hall : Forall (fun batch : list Path => batch <> [])
                   (map (carve (Z.to_nat size) files) (seq 0 (Z.to_nat cnt)))).
  { apply List.Forall_forall. intros batch Hin.
    apply in_map_iff in Hin as (k & <- & Hk). apply in_seq in Hk.
    intros Hnil. apply (f_equal length) in Hnil. unfold carve in Hnil.
    rewrite length_take, length_drop in Hnil. unfold len in *. simpl in Hnil. nia. }
  split; [exact Hall|]. split.
  - unfold len. rewrite length_map, length_seq. lia.
  - unfold started. revert Hall.
    generalize (map (carve (Z.to_nat size) files) (seq 0 (Z.to_nat cnt))) as chunks.
    induction chunks as [|batch chunks IH]; intros Hall; simpl; [reflexivity|].
    inversion Hall as [|? ? Hb Hrest]; subst.
    rewrite bool_decide_eq_false_2 by exact Hb. simpl. rewrite IH by exact Hrest.
    reflexivity.
Qed.

Lemma chunks_nonempty_witness :
  (exists chunks,
     _chunks ["root/a.txt"; "root/b.txt"; "root/c.md"] 2 = Returns chunks /\
     Forall (fun batch => batch <> []) chunks /\
     len chunks <= 2 /\
     started chunks = chunks) /\
  1 <= num_procs (demo None) ["root/a.txt"; "root/b.txt"; "root/c.md"] /\
  1 <= num_threads (demo None) ["root/a.txt"; "root/b.txt"; "root/c.md"].
Proof.
  apply (chunks_nonempty (demo None) ["root/a.txt"; "root/b.txt"; "root/c.md"] 2).
  - discriminate.
  - lia.
Defined.

(** ** Properties of the search *)

(** C1.  The search returns a mapping in which, for every keyword [K] of
    the sequence and every collected file [F] with text [content], [F] is
    listed under [K] exactly when [K] occurs in [content] (both lowercased
    when the flag is set); a key is absent exactly when it is not a keyword
    or occurs in no readable collected file, and no key is bound to the
    empty list. *)
Theorem search_complete (rt : platform) source_dir keywords allow_extensions ci :
  queue_delivers rt ->
  exists result,
    multiprocessing_search rt source_dir keywords allow_extensions ci
      = Returns result /\
    (forall K F content,
        In K keywords ->
        In F (collect_files rt source_dir allow_extensions) ->
        fs_read_text rt F = Text content ->
        (has_pair result K F <->
         if ci then substring_of (str_lower rt K) (str_lower rt content)
         else substring_of K content)) /\
    (forall K,
        result !! K = None <->
        (~ In K keywords \/
         forall F content,
           In F (collect_files rt source_dir allow_extensions) ->
           fs_read_text rt F = Text content ->
           ~ keyword_in rt ci K content)) /\
    no_empty_entry result.
Proof.
  intros Hq.
  destruct (search_spec rt source_dir keywords allow_extensions ci Hq)
    as (result & Hr & Hne & Hperm).
  exists result. split; [exact Hr|].
  assert (Hin : forall K p,
             In p (get result K) <->
             In p (hits rt (collect_files rt source_dir allow_extensions) keywords ci K)).
  { intros K p. split; apply Permutation_in;
      [apply Hperm | apply Permutation_sym, Hperm]. }
  split; [|split; [|exact Hne]].
  - intros K F content HK HF Hread. rewrite has_pair_get, Hin, in_hits.
    change (if ci then substring_of (str_lower rt K) (str_lower rt content)
            else substring_of K content) with (keyword_in rt ci K content).
    split.
    + intros (_ & _ & c & Hc & Hm). congruence.
    + intros Hm. eauto.
  - intros K. rewrite (lookup_None_get _ _ Hne). split.
    + intros Hnil. destruct (In_dec string_dec K keywords) as [HK|HK]; [right|left; exact HK].
      intros F content HF Hread Hm.
      assert (Habs : In F (get result K)) by (apply Hin, in_hits; eauto).
      rewrite Hnil in Habs. destruct Habs.
    + intros Hno. destruct (get result K) as [|p l] eqn:Hg; [reflexivity|].
      assert (Hp : In p (get result K)) by (rewrite Hg; left; reflexivity).
      apply Hin, in_hits in Hp as (HF & HK & c & Hc & Hm).
      destruct Hno as [Hno|Hno]; [destruct (Hno HK) | destruct (Hno p c HF Hc Hm)].
Qed.

Lemma search_complete_witness :
  exists result,
    multiprocessing_search (demo (Some 2)) "root" ["alpha"; "beta"; "delta"]
      (Some [".txt"]) false = Returns result /\
    has_pair result "beta" "root/b.txt" /\
    ~ has_pair result "alpha" "root/b.txt" /\
    result !! "delta" = None.
Proof.
  destruct (search_complete (demo (Some 2)) "root" ["alpha"; "beta"; "delta"]
              (Some [".txt"]) false (fun puts => Permutation_refl puts))
    as (result & Hr & Hiff & Hnone & _).
  exists result. split; [exact Hr|]. split; [|split].
  - apply (Hiff "beta" "root/b.txt" "beta gamma").
    + simpl. auto.
    + vm_compute. auto.
    + reflexivity.
    + exists EmptyString, " gamma". reflexivity.
  - intros Hp. apply (Hiff "alpha" "root/b.txt" "beta gamma") in Hp.
    + apply (contains_true_iff "alpha" "beta gamma") in Hp. discriminate Hp.
    + simpl. auto.
    + vm_compute. auto.
    + reflexivity.
  - apply Hnone. right. intros F content HF Hread Hm.
    apply (matches_true_iff (demo (Some 2)) false "delta" content) in Hm.
    vm_compute in HF.
    destruct HF as [<-|[<-|[<-|[<-|[]]]]]; vm_compute in Hread;
      try discriminate Hread; injection Hread as <-; vm_compute in Hm;
      discriminate Hm.
Defined.

(** C2 as stated fails: with the keyword sequence ["alpha"; "alpha"] the
    file [root/a.txt] is listed twice under "alpha", by the search and by
    one call of [_scan_file]. *)
Lemma duplicate_keyword_duplicates_path :
  exists result paths,
    multiprocessing_search (demo (Some 2)) "root" ["alpha"; "alpha"]
      (Some [".txt"]) false = Returns result /\
    result !! "alpha" = Some paths /\
    fst (_scan_file (demo (Some 2)) "root/a.txt" ["alpha"; "alpha"] ∅ false)
      !! "alpha" = Some paths /\
    paths = ["root/a.txt"; "root/a.txt"] /\
    ~ NoDup paths.
Proof.
  eexists. exists ["root/a.txt"; "root/a.txt"].
  split; [vm_compute; reflexivity|]. split; [reflexivity|].
  split; [reflexivity|]. split; [reflexivity|].
  intros Hnd. inversion Hnd as [|? ? Hnotin _]; subst.
  apply Hnotin. left.
Qed.

Lemma get_scan_file (rt : platform) fp keywords out_map ci K :
  get (fst (_scan_file rt fp keywords out_map ci)) K =
  get out_map K ++ file_hits rt keywords ci K fp.
Proof.
  unfold _scan_file, _read_text_safely, file_hits.
  destruct (fs_read_text rt fp); simpl.
  - apply get_scan_content.
  - rewrite app_nil_r. reflexivity.
  - rewrite app_nil_r. reflexivity.
Qed.

(** C2, amended.  For a keyword sequence without repeated strings and
    every chunk count, the pipeline on a non-empty list of pairwise distinct
    files returns a mapping in which no path occurs twice under one key; so
    does the search when the directory listing repeats no path; and one call
    of [_scan_file] appends the file at most once to the list of a key. *)
Theorem no_duplication (rt : platform) files source_dir keywords
    allow_extensions ci (n : Z) :
  queue_delivers rt -> NoDup keywords ->
  (NoDup files -> files <> [] ->
   exists result,
     pipeline rt files keywords ci n = Returns result /\
     forall K paths, result !! K = Some paths -> NoDup paths) /\
  (NoDup (fs_rglob rt source_dir) ->
   exists result,
     multiprocessing_search rt source_dir keywords allow_extensions ci
       = Returns result /\
     forall K paths, result !! K = Some paths -> NoDup paths) /\
  (forall fp out_map K,
     exists added,
       get (fst (_scan_file rt fp keywords out_map ci)) K = get out_map K ++ added /\
       (added = [] \/ added = [fp])).
Proof.
  intros Hq Hk. split; [|split].
  - intros Hf Hne.
    destruct (pipeline_spec rt files keywords ci n Hq (or_introl Hne))
      as (result & Hr & _ & Hperm).
    exists result. split; [exact Hr|]. intros K paths HK.
    specialize (Hperm K). unfold get in Hperm. rewrite HK in Hperm. simpl in Hperm.
    rewrite Hperm. apply NoDup_hits; assumption.
  - intros Hl.
    destruct (search_spec rt source_dir keywords allow_extensions ci Hq)
      as (result & Hr & _ & Hperm).
    exists result. split; [exact Hr|]. intros K paths HK.
    specialize (Hperm K). unfold get in Hperm. rewrite HK in Hperm. simpl in Hperm.
    rewrite Hperm. apply NoDup_hits; [exact Hk|].
    rewrite collect_files_filter. apply NoDup_ListNoDup, List.NoDup_filter.
    apply NoDup_ListNoDup, Hl.
  - intros fp out_map K. exists (file_hits rt keywords ci K fp).
    split; [apply get_scan_file | apply file_hits_short, Hk].
Qed.

Lemma no_duplication_witness :
  (exists result,
     pipeline (demo (Some 2)) ["root/a.txt"; "root/b.txt"] ["alpha"; "beta"] false 2
       = Returns result /\
     forall K paths, result !! K = Some paths -> NoDup paths) /\
  (exists result,
     multiprocessing_search (demo (Some 2)) "root" ["alpha"; "beta"] None false
       = Returns result /\
     forall K paths, result !! K = Some paths -> NoDup paths).
Proof.
  destruct (no_duplication (demo (Some 2)) ["root/a.txt"; "root/b.txt"] "root"
              ["alpha"; "beta"] None false 2) as (Hpipe & Hsearch & _).
  - intros puts. apply Permutation_refl.
  - apply (bool_decide_unpack _). vm_compute. exact I.
  - split.
    + apply Hpipe; [|discriminate].
      apply (bool_decide_unpack _). vm_compute. exact I.
    + apply Hsearch. apply (bool_decide_unpack _). vm_compute. exact I.
Defined.

(** C3.  For any two positive chunk counts, and whatever the arrival orders,
    the pipeline on a non-empty file list returns two mappings with the same
    (keyword, path) pairs; and so does the search itself on two machines
    with different CPU counts, for every directory. *)
Theorem partition_invariance (rt : platform) files source_dir keywords
    allow_extensions ci (n1 n2 : Z) c1 q1 c2 q2 :
  queue_delivers (on_machine rt c1 q1) -> queue_delivers (on_machine rt c2 q2) ->
  0 < n1 -> 0 < n2 ->
  (files <> [] ->
   exists r1 r2,
     pipeline (on_machine rt c1 q1) files keywords ci n1 = Returns r1 /\
     pipeline (on_machine rt c2 q2) files keywords ci n2 = Returns r2 /\
     forall K p, has_pair r1 K p <-> has_pair r2 K p) /\
  (exists r1 r2,
     multiprocessing_search (on_machine rt c1 q1) source_dir keywords
       allow_extensions ci = Returns r1 /\
     multiprocessing_search (on_machine rt c2 q2) source_dir keywords
       allow_extensions ci = Returns r2 /\
     forall K p, has_pair r1 K p <-> has_pair r2 K p).
Proof.
  intros Hq1 Hq2 Hn1 Hn2. split.
  - intros Hne.
    destruct (pipeline_spec _ files keywords ci n1 Hq1 (or_introl Hne))
      as (r1 & Hr1 & _ & Hp1).
    destruct (pipeline_spec _ files keywords ci n2 Hq2 (or_introl Hne))
      as (r2 & Hr2 & _ & Hp2).
    exists r1, r2. split; [exact Hr1|]. split; [exact Hr2|].
    intros K p. rewrite !has_pair_get.
    assert (Hperm : Permutation (get r1 K) (get r2 K)).
    { etransitivity; [apply Hp1 | apply Permutation_sym, Hp2]. }
    split; apply Permutation_in; [exact Hperm | apply Permutation_sym, Hperm].
  - destruct (search_spec _ source_dir keywords allow_extensions ci Hq1)
      as (r1 & Hr1 & _ & Hp1).
    destruct (search_spec _ source_dir keywords allow_extensions ci Hq2)
      as (r2 & Hr2 & _ & Hp2).
    exists r1, r2. split; [exact Hr1|]. split; [exact Hr2|].
    intros K p. rewrite !has_pair_get.
    assert (Hperm : Permutation (get r1 K) (get r2 K)).
    { etransitivity; [apply Hp1 | apply Permutation_sym, Hp2]. }
    split; apply Permutation_in; [exact Hperm | apply Permutation_sym, Hperm].
Qed.

Lemma partition_invariance_witness :
  exists r1 r2,
    pipeline (on_machine (demo None) (Some 1) (fun puts => puts))
      ["root/a.txt"; "root/b.txt"; "root/bad.txt"] ["alpha"; "beta"] false 1
      = Returns r1 /\
    pipeline (on_machine (demo None) (Some 8) (@rev dict))
      ["root/a.txt"; "root/b.txt"; "root/bad.txt"] ["alpha"; "beta"] false 3
      = Returns r2 /\
    forall K p, has_pair r1 K p <-> has_pair r2 K p.
Proof.
  refine (proj1 (partition_invariance (demo None)
                   ["root/a.txt"; "root/b.txt"; "root/bad.txt"] "root"
                   ["alpha"; "beta"] None false 1 3
                   (Some 1) (fun puts => puts) (Some 8) (@rev dict) _ _ _ _) _).
  - intros puts. apply Permutation_refl.
  - intros puts. apply Permutation_rev.
  - lia.
  - lia.
  - discriminate.
Defined.

(** C6.  For a file with text [content] and a keyword [K] of the sequence,
    the worker lists the file under [K], and [_scan_file] appends it to the
    list of [K], exactly when the lowercased [K] is a substring of the
    lowercased [content] if [case_insensitive] is true, and exactly when [K]
    is a substring of [content] if it is false.  The file holding
    "the foo bar" is recorded for keyword "Foo" under case-insensitive
    matching only. *)
Theorem case_toggle (rt : platform) fp content keywords K out_map :
  fs_read_text rt fp = Text content -> In K keywords ->
  ~ In fp (get out_map K) ->
  (In fp (get (fst (_worker_process rt [fp] keywords true)) K) <->
   substring_of (str_lower rt K) (str_lower rt content)) /\
  (In fp (get (fst (_worker_process rt [fp] keywords false)) K) <->
   substring_of K content) /\
  (In fp (get (fst (_scan_file rt fp keywords out_map true)) K) <->
   substring_of (str_lower rt K) (str_lower rt content)) /\
  (In fp (get (fst (_scan_file rt fp keywords out_map false)) K) <->
   substring_of K content) /\
  _worker_process (demo None) ["root/d.TXT"] ["Foo"] true
    = (<["Foo" := ["root/d.TXT"]]> ∅, []) /\
  _worker_process (demo None) ["root/d.TXT"] ["Foo"] false = (∅, []).
Proof.
  intros Hread HK Hfresh.
  assert (W : forall ci, In fp (get (fst (_worker_process rt [fp] keywords ci)) K)
                         <-> keyword_in rt ci K content).
  { intros ci. rewrite get_worker, in_hits. split.
    - intros (_ & _ & c & Hc & Hm). congruence.
    - intros Hm. split; [left; reflexivity|]. eauto. }
  assert (S : forall ci, In fp (get (fst (_scan_file rt fp keywords out_map ci)) K)
                         <-> keyword_in rt ci K content).
  { intros ci. rewrite get_scan_file, in_app_iff, in_file_hits. split.
    - intros [Hold | (_ & _ & c & Hc & Hm)]; [destruct (Hfresh Hold) | congruence].
    - intros Hm. right. split; [reflexivity|]. eauto. }
  split; [apply (W true)|]. split; [apply (W false)|].
  split; [apply (S true)|]. split; [apply (S false)|].
  split; reflexivity.
Qed.

Lemma case_toggle_witness :
  In "root/d.TXT"
     (get (fst (_scan_file (demo None) "root/d.TXT" ["bar"; "Foo"] ∅ true)) "Foo") /\
  ~ substring_of "Foo" "the foo bar".
Proof.
  destruct (case_toggle (demo None) "root/d.TXT" "the foo bar" ["bar"; "Foo"] "Foo" ∅)
    as (_ & Hworker & Hscan_ci & Hscan_cs & _).
  - reflexivity.
  - simpl. auto.
  - intros [].
  - split.
    + apply Hscan_ci. exists "the ", " bar". reflexivity.
    + intros Hsub. apply Hscan_cs in Hsub. vm_compute in Hsub. destruct Hsub.
Defined.

(** C7 as stated fails: the suffix of [root/a.txt] equals the entry ".TXT"
    up to case, yet the file is not kept; nor is [root/d.TXT], whose suffix
    is the entry itself. *)
Lemma uppercase_entry_keeps_nothing :
  (exists e, In e [".TXT"] /\ ascii_lower e = ascii_lower (suffix "root/a.txt")) /\
  ~ In "root/a.txt" (collect_files (demo None) "root" (Some [".TXT"])) /\
  suffix "root/d.TXT" = ".TXT" /\
  ~ In "root/d.TXT" (collect_files (demo None) "root" (Some [".TXT"])).
Proof.
  split; [exists ".TXT"; split; [left|]; reflexivity|].
  split; [vm_compute; intros []|]. split; [reflexivity | vm_compute; intros []].
Qed.

(** C7, amended.  With a non-empty [allow_extensions] a listed path is kept
    iff it is a file and its lowercased suffix is an element of
    [allow_extensions] as given (the entries are not lowercased); when every
    entry is its own lowercase form this is equality up to case with some
    entry, so a file with suffix ".TXT" is kept when the set has ".txt".
    With an absent or empty filter every file is kept. *)
Theorem extension_filter (rt : platform) source_dir (allowed : list string) p :
  allowed <> [] ->
  (In p (collect_files rt source_dir (Some allowed)) <->
   In p (fs_rglob rt source_dir) /\ fs_is_file rt p = true /\
   In (str_lower rt (suffix p)) allowed) /\
  ((forall e, In e allowed -> str_lower rt e = e) ->
   (In p (collect_files rt source_dir (Some allowed)) <->
    In p (fs_rglob rt source_dir) /\ fs_is_file rt p = true /\
    exists e, In e allowed /\ str_lower rt e = str_lower rt (suffix p))) /\
  (In p (collect_files rt source_dir None) <->
   In p (fs_rglob rt source_dir) /\ fs_is_file rt p = true) /\
  (In p (collect_files rt source_dir (Some [])) <->
   In p (fs_rglob rt source_dir) /\ fs_is_file rt p = true).
Proof.
  intros Hne.
  assert (Hsome : In p (collect_files rt source_dir (Some allowed)) <->
                  In p (fs_rglob rt source_dir) /\ fs_is_file rt p = true /\
                  In (str_lower rt (suffix p)) allowed).
  { rewrite collect_files_filter, filter_In. unfold kept.
    destruct allowed as [|e es]; [congruence|].
    rewrite andb_true_iff, bool_decide_eq_true, list_elem_of_In. reflexivity. }
  split; [exact Hsome|]. split; [|split].
  - intros Hlow. rewrite Hsome. split.
    + intros (Hl & Hf & Hin). split; [exact Hl|]. split; [exact Hf|].
      exists (str_lower rt (suffix p)). split; [exact Hin | apply Hlow, Hin].
    + intros (Hl & Hf & e & Hin & He). split; [exact Hl|]. split; [exact Hf|].
      rewrite <- He, (Hlow e Hin). exact Hin.
  - rewrite collect_files_filter, filter_In. unfold kept.
    rewrite andb_true_r. reflexivity.
  - rewrite collect_files_filter, filter_In. unfold kept.
    rewrite andb_true_r. reflexivity.
Qed.

Lemma extension_filter_witness :
  In "root/d.TXT" (collect_files (demo None) "root" (Some [".txt"; ".md"])) /\
  ~ In "root/d.TXT" (collect_files (demo None) "root" (Some [".TXT"; ".md"])).
Proof.
  destruct (extension_filter (demo None) "root" [".txt"; ".md"] "root/d.TXT")
    as (_ & Hcase & _); [discriminate|].
  destruct (extension_filter (demo None) "root" [".TXT"; ".md"] "root/d.TXT")
    as (Hexact & _); [discriminate|].
  split.
  - apply Hcase.
    + intros e [<-|[<-|[]]]; reflexivity.
    + split; [vm_compute; auto 10|]. split; [reflexivity|].
      exists ".txt". split; [left|]; reflexivity.
  - intros Hin. apply Hexact in Hin.
    destruct Hin as (_ & _ & [H|[H|[]]]); vm_compute in H; discriminate H.
Defined.

(** C9.  When files were collected and the platform does not report 0 CPUs,
    the count passed to the partition is
    [max(1, min(len(files), cpus))], where [cpus] is the reported CPU count,
    or 2 in the multiprocessing module and 4 in the threading module when
    none is reported. *)
Theorem worker_count (rt : platform) source_dir keywords allow_extensions ci :
  let files := collect_files rt source_dir allow_extensions in
  files <> [] -> os_cpu_count rt <> Some 0 ->
  num_procs rt files = Z.max 1 (Z.min (len files) (default 2 (os_cpu_count rt))) /\
  num_threads rt files = Z.max 1 (Z.min (len files) (default 4 (os_cpu_count rt))) /\
  multiprocessing_search rt source_dir keywords allow_extensions ci =
    pipeline rt files keywords ci
      (Z.max 1 (Z.min (len files) (default 2 (os_cpu_count rt)))) /\
  threaded_batches rt source_dir allow_extensions =
    match _chunks files (Z.max 1 (Z.min (len files) (default 4 (os_cpu_count rt)))) with
    | Raises e => Raises e
    | Returns chunks => Returns (started chunks)
    end.
Proof.
  intros files Hne Hcpu.
  assert (Hor : forall d, py_or (os_cpu_count rt) d = default d (os_cpu_count rt)).
  { intros d. unfold py_or. destruct (os_cpu_count rt) as [c|]; [|reflexivity].
    destruct (Z.eqb_spec c 0) as [->|_]; [congruence | reflexivity]. }
  assert (Hp : num_procs rt files
               = Z.max 1 (Z.min (len files) (default 2 (os_cpu_count rt)))).
  { unfold num_procs. rewrite Hor. reflexivity. }
  assert (Ht : num_threads rt files
               = Z.max 1 (Z.min (len files) (default 4 (os_cpu_count rt)))).
  { unfold num_threads. rewrite Hor. reflexivity. }
  split; [exact Hp|]. split; [exact Ht|]. split.
  - unfold multiprocessing_search. fold files.
    rewrite bool_decide_eq_false_2 by exact Hne. rewrite Hp. reflexivity.
  - unfold threaded_batches. fold files.
    rewrite bool_decide_eq_false_2 by exact Hne. rewrite Ht. reflexivity.
Qed.

Lemma worker_count_witness :
  num_procs (demo None) (collect_files (demo None) "root" None) = 2 /\
  num_threads (demo None) (collect_files (demo None) "root" None) = 4 /\
  num_procs (demo (Some 16)) (collect_files (demo (Some 16)) "root" None) = 5.
Proof.
  destruct (worker_count (demo None) "root" ["alpha"] None false) as (Hp & Ht & _).
  - vm_compute. discriminate.
  - discriminate.
  - destruct (worker_count (demo (Some 16)) "root" ["alpha"] None false) as (Hp' & _).
    + vm_compute. discriminate.
    + discriminate.
    + split; [rewrite Hp; reflexivity|]. split; [rewrite Ht | rewrite Hp']; reflexivity.
Defined.

(** ** Unreadable files *)

Section Unreadable.

Context (rt : platform).

(** The dict a worker builds does not depend on what was printed. *)
Lemma worker_dict_from keywords ci files (local : dict) (printed printed' : list string) :
  fst (foldl (worker_step rt keywords ci) (local, printed) files) =
  fst (foldl (worker_step rt keywords ci) (local, printed') files).
Proof.
  revert local printed printed'.
  induction files as [|fp files IH]; intros local printed printed'; simpl; [reflexivity|].
  destruct (_read_text_safely rt fp) as [[content|] w]; apply IH.
Qed.

(** What a worker prints: the lines of its reads, in batch order. *)
Lemma worker_printed_from keywords ci files (st : dict * list string) :
  snd (foldl (worker_step rt keywords ci) st files) =
  snd st ++ flat_map (fun fp => snd (_read_text_safely rt fp)) files.
Proof.
  revert st. induction files as [|fp files IH]; intros [local printed]; simpl.
  - rewrite app_nil_r. reflexivity.
  - rewrite IH. destruct (_read_text_safely rt fp) as [[content|] w]; simpl;
      rewrite <- app_assoc; reflexivity.
Qed.

Lemma read_failure_safely f exc :
  fs_read_text rt f = OSError exc \/ fs_read_text rt f = UnicodeError exc ->
  _read_text_safely rt f = (None, [warning f exc]).
Proof. unfold _read_text_safely. intros [-> | ->]; reflexivity. Qed.

End Unreadable.

(** C8.  When the read of a file [f] of a batch fails, the worker still
    returns: its dict is the one it builds for the batch without [f], so [f]
    is listed under no key and every match of the other files is there; the
    warning for [f] is among the printed lines.  [_scan_file] leaves the
    shared map as it was and prints the warning.  The search over a
    directory with such a file returns a mapping that holds every match of
    the readable files and lists [f] nowhere. *)
Theorem unreadable_file_skipped (rt : platform) before f after keywords ci exc
    out_map source_dir allow_extensions :
  fs_read_text rt f = OSError exc \/ fs_read_text rt f = UnicodeError exc ->
  let run := _worker_process rt (before ++ f :: after) keywords ci in
  fst run = fst (_worker_process rt (before ++ after) keywords ci) /\
  In (warning f exc) (snd run) /\
  (forall K, ~ has_pair (fst run) K f) /\
  (forall K F content,
      In K keywords -> In F (before ++ f :: after) ->
      fs_read_text rt F = Text content -> keyword_in rt ci K content ->
      has_pair (fst run) K F) /\
  _scan_file rt f keywords out_map ci = (out_map, [warning f exc]) /\
  (queue_delivers rt ->
   exists result,
     multiprocessing_search rt source_dir keywords allow_extensions ci
       = Returns result /\
     (forall K, ~ has_pair result K f) /\
     forall K F content,
       In K keywords -> In F (collect_files rt source_dir allow_extensions) ->
       fs_read_text rt F = Text content -> keyword_in rt ci K content ->
       has_pair result K F).
Proof.
  intros Hfail run. pose proof (read_failure_safely rt f exc Hfail) as Hsafe.
  assert (Hnot : forall content, fs_read_text rt f <> Text content).
  { intros content. destruct Hfail as [-> | ->]; discriminate. }
  split; [|split; [|split; [|split; [|split]]]].
  - subst run. unfold _worker_process.
    rewrite !foldl_app. simpl.
    destruct (foldl (worker_step rt keywords ci) (∅, []) before) as [local printed].
    unfold worker_step at 2. rewrite Hsafe. apply worker_dict_from.
  - subst run. unfold _worker_process. rewrite worker_printed_from. simpl.
    rewrite flat_map_app. simpl. rewrite Hsafe. simpl.
    apply in_or_app. right. left. reflexivity.
  - intros K Hp. subst run. rewrite has_pair_get, get_worker, in_hits in Hp.
    destruct Hp as (_ & _ & content & Hc & _). exact (Hnot content Hc).
  - intros K F content HK HF Hread Hm. subst run.
    rewrite has_pair_get, get_worker, in_hits. eauto.
  - unfold _scan_file. rewrite Hsafe. reflexivity.
  - intros Hq.
    destruct (search_spec rt source_dir keywords allow_extensions ci Hq)
      as (result & Hr & _ & Hperm).
    exists result. split; [exact Hr|]. split.
    + intros K Hp. rewrite has_pair_get in Hp.
      apply (Permutation_in _ (Hperm K)), in_hits in Hp
        as (_ & _ & content & Hc & _).
      exact (Hnot content Hc).
    + intros K F content HK HF Hread Hm. rewrite has_pair_get.
      apply (Permutation_in _ (Permutation_sym (Hperm K))), in_hits. eauto.
Qed.

Lemma unreadable_file_skipped_witness :
  In (warning "root/bad.txt" "invalid start byte")
     (snd (_worker_process (demo None) ["root/a.txt"; "root/bad.txt"; "root/b.txt"]
             ["beta"] false)) /\
  has_pair (fst (_worker_process (demo None)
                   ["root/a.txt"; "root/bad.txt"; "root/b.txt"] ["beta"] false))
           "beta" "root/b.txt".
Proof.
  destruct (unreadable_file_skipped (demo None) ["root/a.txt"] "root/bad.txt"
              ["root/b.txt"] ["beta"] false "invalid start byte" ∅ "root" None)
    as (_ & Hwarn & _ & Hkeep & _).
  - right. reflexivity.
  - split; [exact Hwarn|].
    apply (Hkeep "beta" "root/b.txt" "beta gamma").
    + left. reflexivity.
    + simpl. auto.
    + reflexivity.
    + exists EmptyString, " gamma". reflexivity.
Defined.

(** ** Loading the keywords *)

Lemma lstrip_head (s : string) :
  lstrip s = EmptyString \/
  exists c rest, lstrip s = String c rest /\ is_space c = false.
Proof.
  induction s as [|c s IH]; simpl; [left; reflexivity|].
  destruct (is_space c) eqn:E; [exact IH|]. right. eauto.
Qed.

Lemma rstrip_cons (c : ascii) (s : string) :
  is_space c = false -> rstrip (String c s) = String c (rstrip s).
Proof. intros E. simpl. rewrite E. destruct (rstrip s); reflexivity. Qed.

Lemma rstrip_step (c : ascii) (s : string) :
  rstrip (String c s) =
  match rstrip s with
  | EmptyString => if is_space c then EmptyString else String c EmptyString
  | String d r => String c (String d r)
  end.
Proof. reflexivity. Qed.

Lemma rstrip_idem (s : string) : rstrip (rstrip s) = rstrip s.
Proof.
  induction s as [|c s IH]; [reflexivity|]. rewrite (rstrip_step c s).
  destruct (rstrip s) as [|d r] eqn:E.
  - destruct (is_space c) eqn:Ec; [reflexivity|]. simpl. rewrite Ec. reflexivity.
  - rewrite rstrip_step, IH. reflexivity.
Qed.

Lemma lstrip_rstrip (s : string) : lstrip (rstrip s) = rstrip (lstrip s).
Proof.
  induction s as [|c s IH]; [reflexivity|].
  destruct (is_space c) eqn:Ec.
  - cbn [lstrip]. rewrite Ec, <- IH, rstrip_step.
    destruct (rstrip s) as [|d r]; [rewrite Ec; reflexivity|].
    cbn [lstrip]. rewrite Ec. reflexivity.
  - rewrite (rstrip_cons c s Ec). cbn [lstrip]. rewrite Ec.
    rewrite (rstrip_cons c s Ec). reflexivity.
Qed.

Lemma lstrip_idem (s : string) : lstrip (lstrip s) = lstrip s.
Proof.
  destruct (lstrip_head s) as [-> | (c & rest & -> & E)]; [reflexivity|].
  simpl. rewrite E. reflexivity.
Qed.

Lemma strip_idem (s : string) : strip (strip s) = strip s.
Proof.
  unfold strip. rewrite lstrip_rstrip, lstrip_idem, rstrip_idem. reflexivity.
Qed.

Lemma rstrip_app_space (s : string) (c : ascii) :
  is_space c = true -> rstrip (s +:+ String c EmptyString) = rstrip s.
Proof.
  intros Ec. induction s as [|d s IH]; simpl.
  - rewrite Ec. reflexivity.
  - rewrite IH. reflexivity.
Qed.

Lemma strip_app_space (s : string) (c : ascii) :
  is_space c = true -> strip (s +:+ String c EmptyString) = strip s.
Proof.
  intros Ec. unfold strip. rewrite <- !lstrip_rstrip, rstrip_app_space by exact Ec.
  reflexivity.
Qed.

Lemma has_char_lstrip (c : ascii) (s : string) :
  has_char c s = false -> has_char c (lstrip s) = false.
Proof.
  induction s as [|d s IH]; simpl; [reflexivity|].
  intros H. apply orb_false_iff in H as [Hd Hs].
  destruct (is_space d); [apply IH, Hs|]. simpl. rewrite Hd, Hs. reflexivity.
Qed.

Lemma has_char_rstrip (c : ascii) (s : string) :
  has_char c s = false -> has_char c (rstrip s) = false.
Proof.
  induction s as [|d s IH]; simpl; [reflexivity|].
  intros H. apply orb_false_iff in H as [Hd Hs]. specialize (IH Hs).
  destruct (rstrip s) as [|e r].
  - destruct (is_space d); simpl; [reflexivity|]. rewrite Hd. reflexivity.
  - cbn [has_char] in *. rewrite Hd. exact IH.
Qed.

Lemma has_char_app (c : ascii) (s t : string) :
  has_char c (s +:+ t) = has_char c s || has_char c t.
Proof.
  induction s as [|d s IH]; simpl; [reflexivity|].
  rewrite IH, orb_assoc. reflexivity.
Qed.

(** A line of the iteration is newline-free but for a final newline. *)
Lemma lines_shape (text : string) :
  Forall (fun line =>
            exists body, has_char newline body = false /\
                         (line = body \/ line = body +:+ String newline EmptyString))
         (lines text).
Proof.
  induction text as [|c text IH]; cbn [lines]; [constructor|].
  destruct (Ascii.eqb c newline) eqn:Ec.
  - apply Ascii.eqb_eq in Ec. subst c. constructor; [|exact IH].
    exists EmptyString. split; [reflexivity | right; reflexivity].
  - rewrite Ascii.eqb_sym in Ec. destruct (lines text) as [|line more].
    + constructor; [|constructor]. exists (String c EmptyString).
      split; [|left; reflexivity]. cbn [has_char]. rewrite Ec. reflexivity.
    + inversion IH as [|? ? (body & Hb & Hl) Hmore]; subst.
      constructor; [|exact Hmore]. exists (String c body). split.
      * cbn [has_char]. rewrite Ec. exact Hb.
      * destruct Hl as [-> | ->]; [left | right]; reflexivity.
Qed.

Lemma lines_line (l rest : string) :
  has_char newline l = false ->
  lines (l +:+ String newline rest) = (l +:+ String newline EmptyString) :: lines rest.
Proof.
  induction l as [|c l IH]; intros H.
  - reflexivity.
  - cbn [has_char] in H. apply orb_false_iff in H as [Hc Hl].
    change (String c l +:+ String newline rest)
      with (String c (l +:+ String newline rest)).
    cbn [lines]. rewrite Ascii.eqb_sym, Hc, (IH Hl). reflexivity.
Qed.

Lemma lines_unlines (ls : list string) :
  (forall l, In l ls -> has_char newline l = false) ->
  lines (unlines ls) = map (fun l => l +:+ String newline EmptyString) ls.
Proof.
  induction ls as [|l ls IH]; intros H; [reflexivity|].
  cbn [unlines foldr]. fold (unlines ls).
  rewrite lines_line by (apply H; left; reflexivity).
  cbn [map]. rewrite IH; [reflexivity|]. intros l' Hl'. apply H. right. exact Hl'.
Qed.

Lemma nonempty_str_true (s : string) : nonempty_str s = true <-> s <> EmptyString.
Proof. destruct s; simpl; split; congruence. Qed.

Lemma filter_map_comm {X Y} (f : Y -> bool) (g : X -> Y) (l : list X) :
  List.filter f (map g l) = map g (List.filter (fun x => f (g x)) l).
Proof.
  induction l as [|x l IH]; simpl; [reflexivity|].
  rewrite IH. destruct (f (g x)); reflexivity.
Qed.

Lemma keywords_of_unlines (ls : list string) :
  (forall l, In l ls -> has_char newline l = false) ->
  keywords_of_text (unlines ls) =
  map strip (List.filter (fun l => nonempty_str (strip l)) ls).
Proof.
  intros H. unfold keywords_of_text. rewrite (lines_unlines ls H).
  rewrite filter_map_comm, map_map.
  erewrite List.filter_ext.
  - apply map_ext. intros l. apply strip_app_space. reflexivity.
  - intros l. cbv beta. rewrite strip_app_space by reflexivity. reflexivity.
Qed.

(** X1.  Every keyword [load_keywords] returns is non-empty, has no leading
    or trailing whitespace (stripping it changes nothing) and holds no
    newline. *)
Theorem load_keywords_clean (rt : platform) (path : string) (keywords : list string) :
  load_keywords rt path = Done keywords ->
  forall kw, In kw keywords ->
    kw <> EmptyString /\ strip kw = kw /\ has_char newline kw = false.
Proof.
  unfold load_keywords. destruct (fs_read_text rt path) as [text| |]; try discriminate.
  intros [= <-] kw Hin. unfold keywords_of_text in Hin.
  apply in_map_iff in Hin as (line & <- & Hline).
  apply filter_In in Hline as [Hline Hne].
  split; [apply nonempty_str_true, Hne|]. split; [apply strip_idem|].
  pose proof (lines_shape text) as Hshape.
  rewrite List.Forall_forall in Hshape.
  destruct (Hshape line Hline) as (body & Hbody & [-> | ->]).
  - apply has_char_rstrip, has_char_lstrip, Hbody.
  - rewrite strip_app_space by reflexivity.
    apply has_char_rstrip, has_char_lstrip, Hbody.
Qed.

Lemma load_keywords_clean_witness :
  load_keywords main_demo "keywords.txt" = Done ["alpha"; "Beta"; "alpha"] /\
  strip "Beta" = "Beta" /\ has_char newline "Beta" = false.
Proof.
  split; [reflexivity|].
  destruct (load_keywords_clean main_demo "keywords.txt" ["alpha"; "Beta"; "alpha"])
    with (kw := "Beta") as (_ & Hstrip & Hnl).
  - reflexivity.
  - simpl. auto.
  - split; [exact Hstrip | exact Hnl].
Defined.

(** X2.  A file that holds one line per entry is loaded as the stripped
    entries in file order, the entries that are blank after stripping left
    out, repeated entries kept. *)
Theorem load_keywords_lines (rt : platform) (path : string) (ls : list string) :
  fs_read_text rt path = Text (unlines ls) ->
  (forall l, In l ls -> has_char newline l = false) ->
  load_keywords rt path =
  Done (map strip (List.filter (fun l => nonempty_str (strip l)) ls)).
Proof.
  intros Hread Hnl. unfold load_keywords. rewrite Hread.
  rewrite (keywords_of_unlines ls Hnl). reflexivity.
Qed.

Lemma load_keywords_lines_witness :
  load_keywords main_demo "keywords.txt" = Done ["alpha"; "Beta"; "alpha"].
Proof.
  apply (load_keywords_lines main_demo "keywords.txt"
           ["alpha"; "  Beta "; "   "; "alpha"]).
  - reflexivity.
  - intros l [<-|[<-|[<-|[<-|[]]]]]; reflexivity.
Defined.

(** X3.  Round trip: a file written with one keyword per line, each keyword
    non-empty, without surrounding whitespace and without a newline, is
    loaded as exactly that keyword sequence. *)
Theorem load_keywords_round_trip (rt : platform) (path : string)
    (keywords : list string) :
  fs_read_text rt path = Text (unlines keywords) ->
  (forall kw, In kw keywords ->
     kw <> EmptyString /\ strip kw = kw /\ has_char newline kw = false) ->
  load_keywords rt path = Done keywords.
Proof.
  intros Hread Hclean. unfold load_keywords. rewrite Hread.
  rewrite keywords_of_unlines by (intros l Hl; apply (Hclean l Hl)).
  f_equal. clear Hread. induction keywords as [|kw keywords IH]; [reflexivity|].
  destruct (Hclean kw (or_introl eq_refl)) as (Hne & Hstrip & _).
  cbn [List.filter]. rewrite Hstrip.
  apply nonempty_str_true in Hne. rewrite Hne. cbn [map].
  rewrite Hstrip, IH; [reflexivity|].
  intros kw' Hkw'. apply Hclean. right. exact Hkw'.
Qed.

Lemma load_keywords_round_trip_witness :
  load_keywords main_demo "clean.txt" = Done ["alpha"; "two words"; "alpha"].
Proof.
  apply load_keywords_round_trip.
  - reflexivity.
  - intros kw [<-|[<-|[<-|[]]]]; repeat split; discriminate.
Defined.

(** ** Workers and aggregation, exactly *)

Section Exact.

Context (rt : platform).

(** What a file adds under [K]: its path once per occurrence of [K] among
    the keywords, when [K] occurs in the file. *)
Lemma file_hits_repeat keywords ci K fp :
  file_hits rt keywords ci K fp =
  if file_matches rt ci K fp
  then repeat fp (count_occ string_dec keywords K) else [].
Proof.
  unfold file_hits, file_matches.
  destruct (fs_read_text rt fp) as [content| |]; try reflexivity.
  induction keywords as [|kw keywords IH]; simpl.
  - destruct (matches rt ci K content); reflexivity.
  - rewrite IH. destruct (string_dec kw K) as [->|Hne].
    + rewrite bool_decide_eq_true_2 by reflexivity. simpl.
      destruct (matches rt ci K content); reflexivity.
    + rewrite bool_decide_eq_false_2 by exact Hne. reflexivity.
Qed.

Lemma hits_length files keywords ci K :
  length (hits rt files keywords ci K) =
  (count_occ string_dec keywords K *
   length (List.filter (file_matches rt ci K) files))%nat.
Proof.
  unfold hits. induction files as [|fp files IH]; simpl; [lia|].
  rewrite length_app, IH, file_hits_repeat.
  destruct (file_matches rt ci K fp); simpl; [rewrite repeat_length|]; lia.
Qed.

(** Two dicts without empty entries are equal when [get] agrees on them. *)
Lemma dict_eq_get (d1 d2 : dict) :
  no_empty_entry d1 -> no_empty_entry d2 ->
  (forall K, get d1 K = get d2 K) -> d1 = d2.
Proof.
  intros H1 H2 Hget. apply map_eq. intros K.
  specialize (H1 K). specialize (H2 K). specialize (Hget K). unfold get in Hget.
  destruct (d1 !! K) as [[|p l]|], (d2 !! K) as [[|p' l']|]; simpl in Hget;
    congruence.
Qed.

End Exact.

(** X4.  The list a worker puts under a key [K] holds the files of its batch
    in which [K] occurs, in batch order, each as many times in a row as [K]
    occurs in the keyword sequence; so a key that is no keyword is absent,
    and with pairwise distinct keywords the list is the batch filtered by
    the match. *)
Theorem worker_lists_in_batch_order (rt : platform) files keywords ci K :
  get (fst (_worker_process rt files keywords ci)) K =
    flat_map (fun fp => if file_matches rt ci K fp
                        then repeat fp (count_occ string_dec keywords K) else [])
             files /\
  (~ In K keywords -> fst (_worker_process rt files keywords ci) !! K = None) /\
  (NoDup keywords -> In K keywords ->
   get (fst (_worker_process rt files keywords ci)) K
   = List.filter (file_matches rt ci K) files).
Proof.
  assert (E : get (fst (_worker_process rt files keywords ci)) K =
              flat_map (fun fp => if file_matches rt ci K fp
                                  then repeat fp (count_occ string_dec keywords K)
                                  else []) files).
  { rewrite get_worker. unfold hits. apply flat_map_ext. intros fp.
    apply file_hits_repeat. }
  split; [exact E|]. split.
  - intros Hnot. apply lookup_None_get; [apply no_empty_entry_worker|].
    rewrite E. apply flat_map_nil_for. intros fp _.
    rewrite (proj1 (count_occ_not_In string_dec keywords K) Hnot).
    destruct (file_matches rt ci K fp); reflexivity.
  - intros Hnd HK. rewrite E.
    apply NoDup_ListNoDup in Hnd.
    rewrite (proj1 (NoDup_count_occ' string_dec keywords) Hnd K HK).
    clear E. induction files as [|fp files IH]; [reflexivity|].
    cbn [flat_map List.filter]. rewrite IH.
    destruct (file_matches rt ci K fp); reflexivity.
Qed.

Lemma worker_lists_in_batch_order_witness :
  get (fst (_worker_process (demo None)
              ["root/b.txt"; "root/bad.txt"; "root/c.md"; "root/a.txt"]
              ["beta"; "alpha"] false)) "alpha"
  = ["root/c.md"; "root/a.txt"].
Proof.
  destruct (worker_lists_in_batch_order (demo None)
              ["root/b.txt"; "root/bad.txt"; "root/c.md"; "root/a.txt"]
              ["beta"; "alpha"] false "alpha") as (_ & _ & Hfilter).
  rewrite Hfilter.
  - reflexivity.
  - apply (bool_decide_unpack _). vm_compute. exact I.
  - simpl. auto.
Defined.

(** X5.  In the mapping the search returns, the list of a key [K] has
    (occurrences of [K] in the keyword sequence) times (number of collected
    files in which [K] occurs) entries, whatever the number of workers and
    the arrival order. *)
Theorem result_length (rt : platform) source_dir keywords allow_extensions ci :
  queue_delivers rt ->
  exists result,
    multiprocessing_search rt source_dir keywords allow_extensions ci
      = Returns result /\
    forall K,
      length (get result K) =
      (count_occ string_dec keywords K *
       length (List.filter (file_matches rt ci K)
                 (collect_files rt source_dir allow_extensions)))%nat.
Proof.
  intros Hq.
  destruct (search_spec rt source_dir keywords allow_extensions ci Hq)
    as (result & Hr & _ & Hperm).
  exists result. split; [exact Hr|]. intros K.
  rewrite (Permutation_length (Hperm K)). apply hits_length.
Qed.

Lemma result_length_witness :
  exists result,
    multiprocessing_search (demo (Some 2)) "root" ["beta"; "alpha"; "beta"]
      None false = Returns result /\
    length (get result "beta") = 4%nat.
Proof.
  destruct (result_length (demo (Some 2)) "root" ["beta"; "alpha"; "beta"] None false
              (fun puts => Permutation_refl puts)) as (result & Hr & Hlen).
  exists result. split; [exact Hr|]. rewrite Hlen. reflexivity.
Defined.

(** X6.  When the partial results arrive in the order the workers were
    started, the pipeline returns, for every chunk count, exactly the dict
    one worker builds for the whole file list; so does the search for every
    CPU count. *)
Theorem in_order_arrival_is_one_worker (rt : platform) files source_dir keywords
    allow_extensions ci (n : Z) :
  (forall puts, queue_order rt puts = puts) ->
  (files <> [] \/ n <= 0 ->
   pipeline rt files keywords ci n
   = Returns (fst (_worker_process rt files keywords ci))) /\
  multiprocessing_search rt source_dir keywords allow_extensions ci
  = Returns (fst (_worker_process rt (collect_files rt source_dir allow_extensions)
                    keywords ci)).
Proof.
  intros Hfifo.
  assert (P : forall fs m, fs <> [] \/ m <= 0 ->
            pipeline rt fs keywords ci m
            = Returns (fst (_worker_process rt fs keywords ci))).
  { intros fs m Hfm. destruct (chunks_concat fs m Hfm) as (chunks & Hc & Hcat).
    unfold pipeline. rewrite Hc, Hfifo. f_equal.
    apply dict_eq_get.
    - apply no_empty_entry_aggregate, List.Forall_forall. intros partial Hin.
      apply in_map_iff in Hin as (batch & <- & _). apply no_empty_entry_worker.
    - apply no_empty_entry_worker.
    - intros K. rewrite get_aggregate, get_worker.
      rewrite flat_map_concat_map, map_map, <- flat_map_concat_map.
      erewrite flat_map_ext; [|intros batch; apply get_worker].
      rewrite hits_concat, concat_started, Hcat. reflexivity. }
  split; [apply P|].
  unfold multiprocessing_search. case_bool_decide as E.
  - rewrite E. reflexivity.
  - apply P. left. exact E.
Qed.

Lemma in_order_arrival_is_one_worker_witness :
  pipeline (demo None) ["root/a.txt"; "root/b.txt"; "root/c.md"]
    ["alpha"; "beta"] false 2
  = Returns (fst (_worker_process (demo None)
                    ["root/a.txt"; "root/b.txt"; "root/c.md"]
                    ["alpha"; "beta"] false)).
Proof.
  refine (proj1 (in_order_arrival_is_one_worker (demo None)
                   ["root/a.txt"; "root/b.txt"; "root/c.md"] "root"
                   ["alpha"; "beta"] None false 2 _) _).
  - intros puts. reflexivity.
  - left. discriminate.
Defined.

(** X7.  Aggregation drops no key and no path: a key is absent from the
    merged dict only if it is absent from every partial result, and the
    merged list of a key is the concatenation of the partial lists in
    arrival order. *)
Theorem aggregate_keeps_all (partials : list dict) (K : string) :
  (aggregate partials !! K = None <->
   forall partial, In partial partials -> partial !! K = None) /\
  get (aggregate partials) K = flat_map (fun partial => get partial K) partials.
Proof.
  split; [|apply get_aggregate].
  unfold aggregate.
  assert (G : forall aggregated,
            foldl extend_with aggregated partials !! K = None <->
            aggregated !! K = None /\
            forall partial, In partial partials -> partial !! K = None).
  { induction partials as [|partial partials IH]; intros aggregated; simpl.
    - split; [intros H; split; [exact H | intros ? []] | intros [H _]; exact H].
    - rewrite IH, extend_with_spec. split.
      + intros [Hhead Hrest]. destruct (partial !! K) eqn:E; [discriminate|].
        split; [exact Hhead|]. intros p [<-|Hp]; [exact E | apply Hrest, Hp].
      + intros [Ha Hall]. rewrite (Hall partial (or_introl eq_refl)).
        split; [exact Ha|]. intros p Hp. apply Hall. right. exact Hp. }
  rewrite G, lookup_empty. split; [intros [_ H]; exact H | intros H; split; [reflexivity | exact H]].
Qed.

(** X8.  The search lists nothing it should not: every key of the returned
    mapping is one of the keywords, and every path under it is a regular
    file of the directory listing that passed the extension filter, could be
    read, and contains the key. *)
Theorem search_sound (rt : platform) source_dir keywords allow_extensions ci :
  queue_delivers rt ->
  exists result,
    multiprocessing_search rt source_dir keywords allow_extensions ci
      = Returns result /\
    forall K p,
      has_pair result K p ->
      In K keywords /\
      In p (fs_rglob rt source_dir) /\ fs_is_file rt p = true /\
      (forall e es, allow_extensions = Some (e :: es) ->
                    In (str_lower rt (suffix p)) (e :: es)) /\
      exists content, fs_read_text rt p = Text content /\ keyword_in rt ci K content.
Proof.
  intros Hq.
  destruct (search_spec rt source_dir keywords allow_extensions ci Hq)
    as (result & Hr & _ & Hperm).
  exists result. split; [exact Hr|]. intros K p Hp.
  rewrite has_pair_get in Hp.
  apply (Permutation_in _ (Hperm K)), in_hits in Hp as (Hfile & HK & Hcontent).
  rewrite collect_files_filter in Hfile. apply filter_In in Hfile as [Hl Hkept].
  unfold kept in Hkept. apply andb_true_iff in Hkept as [Hisfile Hext].
  split; [exact HK|]. split; [exact Hl|]. split; [exact Hisfile|].
  split; [|exact Hcontent].
  intros e es ->. apply bool_decide_eq_true in Hext.
  apply list_elem_of_In, Hext.
Qed.

Lemma search_sound_witness :
  exists result,
    multiprocessing_search (demo (Some 2)) "root" ["alpha"; "beta"]
      (Some [".txt"]) false = Returns result /\
    ~ has_pair result "alpha" "root/c.md".
Proof.
  destruct (search_sound (demo (Some 2)) "root" ["alpha"; "beta"] (Some [".txt"])
              false (fun puts => Permutation_refl puts)) as (result & Hr & Hsound).
  exists result. split; [exact Hr|]. intros Hp.
  destruct (Hsound "alpha" "root/c.md" Hp) as (_ & _ & _ & Hext & _).
  specialize (Hext ".txt" [] eq_refl). vm_compute in Hext.
  destruct Hext as [H|[]]. discriminate H.
Defined.

(** X9.  A worker prints one warning per file of its batch that cannot be
    read, in batch order, and nothing else; the keywords and the case flag
    have no influence. *)
Theorem worker_warnings (rt : platform) files keywords ci :
  snd (_worker_process rt files keywords ci) = flat_map (read_warnings rt) files.
Proof.
  unfold _worker_process. rewrite worker_printed_from. simpl.
  apply flat_map_ext. intros fp. unfold _read_text_safely, read_warnings.
  destruct (fs_read_text rt fp); reflexivity.
Qed.




(** X11.  The number of workers started is at least 1 and at most both the
    number of collected files and the CPU count (2 processes, 4 threads when
    the platform reports none). *)
Theorem workers_bounded (rt : platform) source_dir allow_extensions :
  let files := collect_files rt source_dir allow_extensions in
  files <> [] ->
  (forall c, os_cpu_count rt = Some c -> 0 < c) ->
  (exists chunks,
     _chunks files (num_procs rt files) = Returns chunks /\
     1 <= len (started chunks)
       <= Z.min (len files) (default 2 (os_cpu_count rt))) /\
  (exists batches,
     threaded_batches rt source_dir allow_extensions = Returns batches /\
     1 <= len batches <= Z.min (len files) (default 4 (os_cpu_count rt))).
Proof.
  intros files Hne Hcpu. pose proof (len_pos files Hne) as HL.
  assert (Hor : forall d, 0 < d -> py_or (os_cpu_count rt) d = default d (os_cpu_count rt)
                                   /\ 0 < default d (os_cpu_count rt)).
  { intros d Hd. unfold py_or. destruct (os_cpu_count rt) as [c|] eqn:E; simpl.
    - specialize (Hcpu c eq_refl). destruct (Z.eqb_spec c 0); [lia|]. split; [reflexivity | lia].
    - split; [reflexivity | lia]. }
  assert (G : forall n, 1 <= n <= len files ->
            exists chunks, _chunks files n = Returns chunks /\
                           1 <= len (started chunks) <= n).
  { intros n Hn.
    destruct (chunk_arith (len files) n HL ltac:(lia)) as (Hsize & _ & Hcnt & Hcover).
    eexists. split; [apply chunks_carve; [exact Hne | lia]|].
    set (size := (len files + n - 1) / n) in *.
    set (cnt := (len files - 1) / size + 1) in *.
    assert (Hs : started (map (carve (Z.to_nat size) files) (seq 0 (Z.to_nat cnt)))
                 = map (carve (Z.to_nat size) files) (seq 0 (Z.to_nat cnt))).
    { unfold started. apply forallb_filter_id, forallb_forall. intros batch Hin.
      apply in_map_iff in Hin as (k & <- & Hk). apply in_seq in Hk.
      apply negb_true_iff, bool_decide_eq_false. intros Hnil.
      apply (f_equal length) in Hnil. unfold carve in Hnil.
      rewrite length_take, length_drop in Hnil. unfold len in *. simpl in Hnil. nia. }
    rewrite Hs. unfold len. rewrite length_map, length_seq. lia. }
  split.
  - destruct (Hor 2 ltac:(lia)) as [E Hpos].
    destruct (G (num_procs rt files)) as (chunks & Hc & Hb).
    { unfold num_procs. rewrite E. lia. }
    exists chunks. split; [exact Hc|]. unfold num_procs in Hb. rewrite E in Hb. lia.
  - destruct (Hor 4 ltac:(lia)) as [E Hpos].
    destruct (G (num_threads rt files)) as (chunks & Hc & Hb).
    { unfold num_threads. rewrite E. lia. }
    exists (started chunks). unfold threaded_batches. fold files.
    rewrite bool_decide_eq_false_2 by exact Hne. rewrite Hc.
    split; [reflexivity|]. unfold num_threads in Hb. rewrite E in Hb. lia.
Qed.

Lemma workers_bounded_witness :
  exists batches,
    threaded_batches (demo (Some 3)) "root" None = Returns batches /\
    1 <= len batches <= 3.
Proof.
  destruct (workers_bounded (demo (Some 3)) "root" None) as (_ & batches & Hb & Hlen).
  - vm_compute. discriminate.
  - intros c [= <-]. lia.
  - exists batches. split; [exact Hb|]. vm_compute in Hlen. vm_compute. exact Hlen.
Defined.

(** X12.  With at least as many workers as items every chunk holds exactly
    one item, in order; so when the CPU count is at least the number of
    collected files each worker scans exactly one file. *)
Theorem one_file_per_worker (rt : platform) (files : list Path) (n : Z) :
  files <> [] ->
  (len files <= n -> _chunks files n = Returns (map (fun fp => [fp]) files)) /\
  (len files <= py_or (os_cpu_count rt) 2 ->
   _chunks files (num_procs rt files) = Returns (map (fun fp => [fp]) files)) /\
  (len files <= py_or (os_cpu_count rt) 4 ->
   _chunks files (num_threads rt files) = Returns (map (fun fp => [fp]) files)).
Proof.
  intros Hne. pose proof (len_pos files Hne) as HL.
  assert (G : forall m, len files <= m ->
            _chunks files m = Returns (map (fun fp => [fp]) files)).
  { intros m Hm. rewrite chunks_carve by (assumption || lia).
    assert (Hsize : (len files + m - 1) / m = 1).
    { symmetry. apply (Z.div_unique_pos _ _ 1 (len files - 1)); lia. }
    rewrite Hsize, Z.div_1_r. f_equal.
    replace (Z.to_nat (len files - 1 + 1)) with (length files) by (unfold len; lia).
    clear. unfold carve. induction files as [|fp files IH]; [reflexivity|].
    cbn [length seq map]. rewrite <- seq_shift, map_map. f_equal.
    rewrite <- IH. apply map_ext. intros k.
    replace (S k * Z.to_nat 1)%nat with (S (k * Z.to_nat 1)) by lia. reflexivity. }
  split; [apply G|]. split; intros Hc; apply G.
  - unfold num_procs. lia.
  - unfold num_threads. lia.
Qed.

Lemma one_file_per_worker_witness :
  _chunks ["root/a.txt"; "root/b.txt"; "root/c.md"] 8
  = Returns [["root/a.txt"]; ["root/b.txt"]; ["root/c.md"]].
Proof.
  refine (proj1 (one_file_per_worker (demo None)
                   ["root/a.txt"; "root/b.txt"; "root/c.md"] 8 _) _).
  - discriminate.
  - vm_compute. discriminate.
Defined.

(** ** The threaded search *)

Lemma interleave_perm {E} (turns : list nat) (traces : list (list E)) :
  Permutation (interleave turns traces) (concat traces).
Proof.
  revert traces. induction turns as [|t turns IH]; intros traces; simpl.
  - apply Permutation_refl.
  - destruct (traces !! t) as [[|ev rest]|] eqn:Ht; try apply IH.
    etransitivity; [apply perm_skip, IH|].
    rewrite <- (take_drop_middle traces t (ev :: rest) Ht) at 2.
    rewrite insert_take_drop by (eapply lookup_lt_Some; exact Ht).
    rewrite !concat_app. simpl. apply Permutation_middle.
Qed.

Lemma get_events (evs : list (string * Path)) (m : dict) (K : string) :
  get (foldl append_event m evs) K = get m K ++ flat_map (under K) evs.
Proof.
  revert m. induction evs as [|[kw p] evs IH]; intros m; simpl.
  - rewrite app_nil_r. reflexivity.
  - rewrite IH. unfold append_event. simpl.
    rewrite get_append_path, <- app_assoc. reflexivity.
Qed.

Lemma no_empty_entry_events (evs : list (string * Path)) (m : dict) :
  no_empty_entry m -> no_empty_entry (foldl append_event m evs).
Proof.
  revert m. induction evs as [|ev evs IH]; intros m Hm; simpl; [exact Hm|].
  apply IH, no_empty_entry_append_path, Hm.
Qed.

Lemma flat_map_flat_map {X Y Z} (f : X -> list Y) (g : Y -> list Z) (l : list X) :
  flat_map g (flat_map f l) = flat_map (fun x => flat_map g (f x)) l.
Proof.
  induction l as [|x l IH]; simpl; [reflexivity|].
  rewrite flat_map_app, IH. reflexivity.
Qed.

Lemma under_scan_events (rt : platform) fp keywords ci K :
  flat_map (under K) (scan_events rt fp keywords ci) = file_hits rt keywords ci K fp.
Proof.
  unfold scan_events, file_hits, _read_text_safely.
  destruct (fs_read_text rt fp) as [content| |]; try reflexivity.
  induction keywords as [|kw keywords IH]; simpl; [reflexivity|].
  rewrite <- IH. destruct (matches rt ci kw content); simpl.
  - rewrite andb_true_r. unfold under at 1. simpl.
    destruct (bool_decide (kw = K)); reflexivity.
  - rewrite andb_false_r. reflexivity.
Qed.

Lemma under_thread_events (rt : platform) batch keywords ci K :
  flat_map (under K) (thread_events rt batch keywords ci) = hits rt batch keywords ci K.
Proof.
  unfold thread_events, hits. rewrite flat_map_flat_map.
  apply flat_map_ext. intros fp. apply under_scan_events.
Qed.

(** The appends of [scan_events] are those of [_scan_file]. *)
Lemma scan_file_events (rt : platform) fp keywords (out_map : dict) ci :
  fst (_scan_file rt fp keywords out_map ci)
  = foldl append_event out_map (scan_events rt fp keywords ci).
Proof.
  unfold _scan_file, scan_events.
  destruct (_read_text_safely rt fp) as [[content|] w]; [|reflexivity].
  simpl. rewrite scan_content_fold. revert out_map.
  induction keywords as [|kw keywords IH]; intros out_map; simpl; [reflexivity|].
  destruct (matches rt ci kw content); simpl; apply IH.
Qed.

(** Whatever the schedule, the shared map ends up with, under each key, a
    permutation of the hits of the batches the threads read. *)
Lemma threaded_spec (rt : platform) (sch : schedule) source_dir keywords
    allow_extensions ci :
  collect_files rt source_dir allow_extensions <> [] ->
  exists chunks result,
    _chunks (collect_files rt source_dir allow_extensions)
      (num_threads rt (collect_files rt source_dir allow_extensions))
      = Returns chunks /\
    concat chunks = collect_files rt source_dir allow_extensions /\
    threaded_search rt sch source_dir keywords allow_extensions ci = Returns result /\
    no_empty_entry result /\
    forall K,
      Permutation (get result K)
        (hits rt (concat (thread_reads (late sch) chunks)) keywords ci K).
Proof.
  intros Hne.
  destruct (chunks_concat _ (num_threads rt (collect_files rt source_dir allow_extensions))
              (or_introl Hne)) as (chunks & Hc & Hcat).
  exists chunks. eexists. split; [exact Hc|]. split; [exact Hcat|].
  unfold threaded_search. rewrite bool_decide_eq_false_2 by exact Hne. rewrite Hc.
  split; [reflexivity|]. split.
  - apply no_empty_entry_events, no_empty_entry_empty.
  - intros K. rewrite get_events, get_empty. simpl.
    etransitivity; [apply flat_map_Permutation, interleave_perm|].
    generalize (thread_reads (late sch) chunks) as reads.
    induction reads as [|batch reads IH]; simpl; [constructor|].
    rewrite flat_map_app, under_thread_events, hits_app.
    apply Permutation_app_head, IH.
Qed.

Lemma map_nth_seq {X} (l : list X) (d : X) :
  map (fun c => nth c l d) (seq 0 (length l)) = l.
Proof.
  induction l as [|x l IH]; [reflexivity|].
  cbn [length seq map nth]. rewrite <- seq_shift, map_map. f_equal. exact IH.
Qed.

(** A prompt schedule makes every thread iterate the batch it was started
    for. *)
Lemma prompt_reads (late : list nat) (chunks : list (list Path)) :
  (forall k, nth k late 0%nat = 0%nat) ->
  thread_reads late chunks = started chunks.
Proof.
  intros Hprompt. unfold thread_reads, started, started_at.
  set (P := fun batch : list Path => negb (bool_decide (batch = []))).
  assert (R : List.filter P chunks =
              map (fun c => nth c chunks [])
                  (List.filter (fun c => P (nth c chunks [])) (seq 0 (length chunks)))).
  { rewrite <- filter_map_comm, map_nth_seq. reflexivity. }
  rewrite R. subst P. cbv beta.
  change (map ?f ?l) with (f <$> l). rewrite <- imap_const. apply imap_ext.
  intros k c Hk. simpl. rewrite Hprompt, Nat.add_0_r.
  apply list_elem_of_lookup_2, list_elem_of_In, filter_In in Hk as [Hc _].
  apply in_seq in Hc. f_equal. lia.
Qed.

Lemma in_thread_reads (late : list nat) (chunks : list (list Path)) (p : Path) :
  In p (concat (thread_reads late chunks)) -> In p (concat chunks).
Proof.
  intros Hp. apply in_concat in Hp as (batch & Hbatch & Hp).
  apply in_concat. exists batch. split; [|exact Hp].
  unfold thread_reads in Hbatch.
  apply list_elem_of_In, list_elem_of_lookup in Hbatch as (k & Hk).
  rewrite list_lookup_imap in Hk.
  destruct (started_at chunks !! k) as [c|]; [|discriminate].
  simpl in Hk. injection Hk as <-.
  destruct (nth_in_or_default (Nat.min (c + nth k late 0%nat) (length chunks - 1))
              chunks []) as [Hin | Hnil]; [exact Hin|].
  rewrite Hnil in Hp. destruct Hp.
Qed.

(** With prompt reads the shared map lists, under each key, a permutation
    of the hits of the collected files. *)
Lemma threaded_prompt_spec (rt : platform) (sch : schedule) source_dir keywords
    allow_extensions ci :
  prompt sch ->
  exists result,
    threaded_search rt sch source_dir keywords allow_extensions ci = Returns result /\
    no_empty_entry result /\
    forall K, Permutation (get result K)
                (hits rt (collect_files rt source_dir allow_extensions) keywords ci K).
Proof.
  intros Hprompt.
  destruct (decide (collect_files rt source_dir allow_extensions = [])) as [E|Hne].
  - exists ∅. unfold threaded_search. rewrite bool_decide_eq_true_2 by exact E.
    split; [reflexivity|]. split; [apply no_empty_entry_empty|].
    intros K. rewrite E, get_empty. constructor.
  - destruct (threaded_spec rt sch source_dir keywords allow_extensions ci Hne)
      as (chunks & result & _ & Hcat & Hr & Hnee & Hperm).
    exists result. split; [exact Hr|]. split; [exact Hnee|]. intros K.
    specialize (Hperm K).
    rewrite (prompt_reads _ chunks Hprompt), concat_started, Hcat in Hperm.
    exact Hperm.
Qed.

(** X13.  Calling [_scan_file] on the files of a batch in turn, as a thread
    does, builds from the empty map exactly the dict [_worker_process] builds
    for that batch; from any map it extends the list of each key by the
    matching files of the batch, in batch order, each once per occurrence of
    the key among the keywords; and it performs exactly the appends of
    [thread_events], in that order. *)
Theorem scan_files_in_turn (rt : platform) batch keywords ci :
  foldl (fun out_map fp => fst (_scan_file rt fp keywords out_map ci)) ∅ batch
  = fst (_worker_process rt batch keywords ci) /\
  (forall out_map K,
    get (foldl (fun out_map fp => fst (_scan_file rt fp keywords out_map ci))
               out_map batch) K
    = get out_map K ++
      flat_map (fun fp => if file_matches rt ci K fp
                          then repeat fp (count_occ string_dec keywords K) else [])
               batch) /\
  (forall out_map,
    foldl (fun out_map fp => fst (_scan_file rt fp keywords out_map ci)) out_map batch
    = foldl append_event out_map (thread_events rt batch keywords ci)).
Proof.
  assert (G : forall (st : dict * list string),
            foldl (fun out_map fp => fst (_scan_file rt fp keywords out_map ci))
                  (fst st) batch
            = fst (foldl (worker_step rt keywords ci) st batch)).
  { induction batch as [|fp batch IH]; intros [m printed]; simpl; [reflexivity|].
    rewrite <- IH. f_equal. unfold _scan_file.
    destruct (_read_text_safely rt fp) as [[content|] w]; reflexivity. }
  split; [apply (G (∅, []))|]. split.
  - intros out_map K. pose proof (G (out_map, [])) as G'. simpl in G'.
    rewrite G', get_worker_from. simpl.
    f_equal. unfold hits. apply flat_map_ext. intros fp. apply file_hits_repeat.
  - clear G. unfold thread_events.
    induction batch as [|fp batch IH]; intros out_map; simpl; [reflexivity|].
    rewrite foldl_app, <- scan_file_events. apply IH.
Qed.

(** X14.  When every thread reads its batch before the starting loop
    advances, the threaded search returns, for every interleaving of the
    appends, a mapping without empty lists in which a path is listed under a
    key exactly when it is a collected file that can be read, the key is a
    keyword and occurs in the file; the list of a key has (occurrences of the
    key among the keywords) times (number of matching files) entries. *)
Theorem threaded_search_complete (rt : platform) (sch : schedule) source_dir
    keywords allow_extensions ci :
  prompt sch ->
  exists result,
    threaded_search rt sch source_dir keywords allow_extensions ci = Returns result /\
    no_empty_entry result /\
    (forall K p,
        has_pair result K p <->
        In p (collect_files rt source_dir allow_extensions) /\ In K keywords /\
        exists content, fs_read_text rt p = Text content /\ keyword_in rt ci K content) /\
    forall K,
      length (get result K) =
      (count_occ string_dec keywords K *
       length (List.filter (file_matches rt ci K)
                 (collect_files rt source_dir allow_extensions)))%nat.
Proof.
  intros Hprompt.
  pose proof (threaded_prompt_spec rt sch source_dir keywords allow_extensions
                ci Hprompt) as S.
  destruct S as (result & Hr & Hnee & Hperm).
  exists result. split; [exact Hr|]. split; [exact Hnee|]. split.
  - intros K p. rewrite has_pair_get, <- in_hits.
    split; apply Permutation_in; [apply Hperm | apply Permutation_sym, Hperm].
  - intros K. rewrite (Permutation_length (Hperm K)). apply hits_length.
Qed.

Lemma threaded_search_complete_witness :
  exists result,
    threaded_search (demo (Some 2)) {| late := []; turns := [1; 0; 1; 1; 0]%nat |}
      "root" ["alpha"; "beta"] (Some [".txt"]) false = Returns result /\
    has_pair result "beta" "root/b.txt" /\
    length (get result "beta") = 2%nat.
Proof.
  destruct (threaded_search_complete (demo (Some 2))
              {| late := []; turns := [1; 0; 1; 1; 0]%nat |}
              "root" ["alpha"; "beta"] (Some [".txt"]) false)
    as (result & Hr & _ & Hiff & Hlen).
  - intros k. destruct k; reflexivity.
  - exists result. split; [exact Hr|]. split.
    + apply Hiff. split; [vm_compute; auto|]. split; [simpl; auto|].
      exists "beta gamma". split; [reflexivity|].
      exists EmptyString, " gamma". reflexivity.
    + rewrite Hlen. reflexivity.
Defined.

(** X15.  The two modules agree: with prompt reads, for every interleaving
    and every arrival order, the threaded and the multiprocessing search
    return mappings with the same keys and, under each key, the same paths
    with the same multiplicities. *)
Theorem threaded_agrees_with_multiprocessing (rt : platform) (sch : schedule)
    source_dir keywords allow_extensions ci :
  prompt sch -> queue_delivers rt ->
  exists by_threads by_processes,
    threaded_search rt sch source_dir keywords allow_extensions ci
      = Returns by_threads /\
    multiprocessing_search rt source_dir keywords allow_extensions ci
      = Returns by_processes /\
    forall K,
      Permutation (get by_threads K) (get by_processes K) /\
      (by_threads !! K = None <-> by_processes !! K = None).
Proof.
  intros Hprompt Hq.
  destruct (search_spec rt source_dir keywords allow_extensions ci Hq)
    as (by_processes & Hp & Hnep & Hpp).
  pose proof (threaded_prompt_spec rt sch source_dir keywords allow_extensions
                ci Hprompt) as S.
  destruct S as (by_threads & Ht & Hnet & Hpt).
  exists by_threads, by_processes. split; [exact Ht|]. split; [exact Hp|].
  intros K.
  assert (Hperm : Permutation (get by_threads K) (get by_processes K)).
  { etransitivity; [apply Hpt | apply Permutation_sym, Hpp]. }
  split; [exact Hperm|].
  rewrite (lookup_None_get _ _ Hnet), (lookup_None_get _ _ Hnep).
  split; intros Hnil.
  - apply Permutation_sym in Hperm. rewrite Hnil in Hperm.
    apply Permutation_sym, Permutation_nil in Hperm. exact Hperm.
  - rewrite Hnil in Hperm. apply Permutation_nil. apply Permutation_sym, Hperm.
Qed.

Lemma threaded_agrees_with_multiprocessing_witness :
  exists by_threads by_processes,
    threaded_search (demo (Some 2)) {| late := [0; 0]%nat; turns := [1; 1; 0]%nat |}
      "root" ["alpha"; "beta"] None true = Returns by_threads /\
    multiprocessing_search (demo (Some 2)) "root" ["alpha"; "beta"] None true
      = Returns by_processes /\
    forall K,
      Permutation (get by_threads K) (get by_processes K) /\
      (by_threads !! K = None <-> by_processes !! K = None).
Proof.
  apply (threaded_agrees_with_multiprocessing (demo (Some 2))
           {| late := [0; 0]%nat; turns := [1; 1; 0]%nat |}
           "root" ["alpha"; "beta"] None true).
  - intros k. destruct k as [|[|k]]; [reflexivity | reflexivity | destruct k; reflexivity].
  - intros puts. apply Permutation_refl.
Defined.

(** X16.  Under every schedule, late reads included, the threaded search
    returns, and lists nothing it should not: every key is a keyword and
    every path under it is a collected file that can be read and contains the
    key. *)
Theorem threaded_search_sound (rt : platform) (sch : schedule) source_dir
    keywords allow_extensions ci :
  exists result,
    threaded_search rt sch source_dir keywords allow_extensions ci = Returns result /\
    no_empty_entry result /\
    forall K p,
      has_pair result K p ->
      In p (collect_files rt source_dir allow_extensions) /\ In K keywords /\
      exists content, fs_read_text rt p = Text content /\ keyword_in rt ci K content.
Proof.
  destruct (decide (collect_files rt source_dir allow_extensions = [])) as [E|Hne].
  - exists ∅. unfold threaded_search. rewrite bool_decide_eq_true_2 by exact E.
    split; [reflexivity|]. split; [apply no_empty_entry_empty|].
    intros K p Hp. rewrite has_pair_get, get_empty in Hp. destruct Hp.
  - destruct (threaded_spec rt sch source_dir keywords allow_extensions ci Hne)
      as (chunks & result & _ & Hcat & Hr & Hnee & Hperm).
    exists result. split; [exact Hr|]. split; [exact Hnee|].
    intros K p Hp. rewrite has_pair_get in Hp.
    apply (Permutation_in _ (Hperm K)), in_hits in Hp as (Hin & Hrest).
    split; [|exact Hrest]. rewrite <- Hcat. eapply in_thread_reads, Hin.
Qed.

Lemma filter_seq_lookup (P : nat -> bool) (a n k c : nat) :
  List.filter P (seq a n) !! k = Some c -> (a + k <= c < a + n)%nat.
Proof.
  revert a k. induction n as [|n IH]; intros a k; simpl; [discriminate|].
  destruct (P a).
  - destruct k as [|k]; simpl.
    + intros [= <-]. lia.
    + intros H. apply IH in H. lia.
  - intros H. apply IH in H. lia.
Qed.

(** X17.  The thread body reads the loop variable [batch] when it runs.  If
    the first thread reads it after the loop has advanced, and there are at
    least two collected files and two CPUs, the first collected file is
    scanned by no thread: it is listed under no key, whatever it contains. *)
Theorem late_read_skips_first_file (rt : platform) (sch : schedule) source_dir
    keywords allow_extensions ci (first : Path) (rest : list Path) :
  collect_files rt source_dir allow_extensions = first :: rest ->
  rest <> [] -> ~ In first rest ->
  2 <= py_or (os_cpu_count rt) 4 ->
  (1 <= nth 0 (late sch) 0)%nat ->
  exists result,
    threaded_search rt sch source_dir keywords allow_extensions ci = Returns result /\
    forall K, ~ has_pair result K first.
Proof.
  intros Hfiles Hrest Hfresh Hcpu Hlate.
  assert (Hne : collect_files rt source_dir allow_extensions <> [])
    by (rewrite Hfiles; discriminate).
  destruct (threaded_spec rt sch source_dir keywords allow_extensions ci Hne)
    as (chunks & result & Hc & _ & Hr & _ & Hperm).
  exists result. split; [exact Hr|]. intros K Hp.
  rewrite has_pair_get in Hp.
  apply (Permutation_in _ (Hperm K)), in_hits in Hp as (Hin & _).
  rewrite Hfiles in Hc.
  set (files := first :: rest) in *.
  assert (HL : 2 <= len files).
  { unfold files, len. destruct rest; [congruence|]. simpl. lia. }
  assert (Hn : 2 <= num_threads rt files) by (unfold num_threads; lia).
  rewrite chunks_carve in Hc by (discriminate || lia).
  destruct (chunk_arith (len files) (num_threads rt files) ltac:(lia) ltac:(lia))
    as (Hsize & Hceil & Hcnt & Hcover).
  set (size := (len files + num_threads rt files - 1) / num_threads rt files) in *.
  set (cnt := (len files - 1) / size + 1) in *.
  assert (Hsmall : size < len files).
  { apply Z.div_lt_upper_bound; nia. }
  assert (Hcnt2 : 2 <= cnt).
  { unfold cnt. assert (1 <= (len files - 1) / size); [|lia].
    apply Z.div_le_lower_bound; lia. }
  injection Hc as <-.
  apply in_concat in Hin as (batch & Hbatch & Hin).
  unfold thread_reads in Hbatch.
  apply list_elem_of_In, list_elem_of_lookup in Hbatch as (k & Hk).
  rewrite list_lookup_imap in Hk.
  destruct (started_at _ !! k) as [c|] eqn:Hstart; [|discriminate].
  simpl in Hk. injection Hk as <-.
  unfold started_at in Hstart. apply filter_seq_lookup in Hstart.
  rewrite length_map, length_seq in *.
  set (j := Nat.min (c + nth k (late sch) 0%nat) (Z.to_nat cnt - 1)) in *.
  assert (Hj : (1 <= j < Z.to_nat cnt)%nat).
  { unfold j. destruct k as [|k]; lia. }
  rewrite (nth_indep _ [] (carve (Z.to_nat size) files 0%nat)) in Hin
    by (rewrite length_map, length_seq; lia).
  rewrite (map_nth (carve (Z.to_nat size) files)), seq_nth in Hin by lia.
  unfold carve in Hin. simpl in Hin.
  apply list_elem_of_In, subseteq_take in Hin.
  destruct (j * Z.to_nat size)%nat as [|m] eqn:Hm; [nia|].
  unfold files in Hin. simpl in Hin. apply subseteq_drop in Hin.
  apply Hfresh, list_elem_of_In, Hin.
Qed.

Lemma late_read_skips_first_file_witness :
  exists result,
    threaded_search (demo (Some 2)) {| late := [1%nat]; turns := [] |}
      "root" ["alpha"] None false = Returns result /\
    ~ has_pair result "alpha" "root/a.txt" /\
    file_matches (demo (Some 2)) false "alpha" "root/a.txt" = true.
Proof.
  destruct (late_read_skips_first_file (demo (Some 2))
              {| late := [1%nat]; turns := [] |} "root" ["alpha"] None false
              "root/a.txt" ["root/b.txt"; "root/c.md"; "root/d.TXT"; "root/bad.txt"])
    as (result & Hr & Hskip).
  - vm_compute. reflexivity.
  - discriminate.
  - intros [H|[H|[H|[H|[]]]]]; discriminate H.
  - vm_compute. discriminate.
  - simpl. lia.
  - exists result. split; [exact Hr|]. split; [apply Hskip | reflexivity].
Defined.

(** X18.  The main block of the multiprocessing module, when the keywords
    file can be read, prints a mapping whose keys are stripped, non-empty
    lines of that file and whose paths are regular files under
    [sample_files] with suffix ".txt" up to case that contain the key up to
    case; when the keywords file cannot be read the failure leaves the
    program before any file is scanned. *)
Theorem main_prints (rt : platform) :
  queue_delivers rt ->
  (forall text,
     fs_read_text rt "keywords.txt" = Text text ->
     exists result,
       main_multiprocessing rt = Done result /\
       forall K p,
         has_pair result K p ->
         (K <> EmptyString /\ strip K = K /\ In K (keywords_of_text text)) /\
         In p (fs_rglob rt "sample_files") /\ fs_is_file rt p = true /\
         str_lower rt (suffix p) = ".txt" /\
         exists content,
           fs_read_text rt p = Text content /\
           substring_of (str_lower rt K) (str_lower rt content)) /\
  (forall exc, fs_read_text rt "keywords.txt" = OSError exc ->
               main_multiprocessing rt = Uncaught_OSError exc) /\
  (forall exc, fs_read_text rt "keywords.txt" = UnicodeError exc ->
               main_multiprocessing rt = Uncaught_UnicodeError exc).
Proof.
  intros Hq. split; [|split].
  - intros text Hread.
    destruct (search_spec rt "sample_files" (keywords_of_text text) (Some [".txt"])
                true Hq) as (result & Hr & _ & Hperm).
    exists result. unfold main_multiprocessing, load_keywords. rewrite Hread, Hr.
    split; [reflexivity|]. intros K p Hp. rewrite has_pair_get in Hp.
    apply (Permutation_in _ (Hperm K)), in_hits in Hp as (Hfile & HK & Hcontent).
    rewrite collect_files_filter in Hfile. apply filter_In in Hfile as [Hl Hkept].
    unfold kept in Hkept. apply andb_true_iff in Hkept as [Hisfile Hext].
    apply bool_decide_eq_true, list_elem_of_In in Hext.
    destruct Hext as [Hext|[]].
    split.
    { assert (Hload : load_keywords rt "keywords.txt" = Done (keywords_of_text text))
        by (unfold load_keywords; rewrite Hread; reflexivity).
      unfold keywords_of_text in HK.
      apply in_map_iff in HK as (line & <- & Hline).
      pose proof Hline as Hline'. apply filter_In in Hline' as [_ Hnonempty].
      split; [apply nonempty_str_true, Hnonempty|]. split; [apply strip_idem|].
      unfold keywords_of_text. apply in_map, Hline. }
    split; [exact Hl|]. split; [exact Hisfile|]. split; [symmetry; exact Hext|].
    exact Hcontent.
  - intros exc Hread. unfold main_multiprocessing, load_keywords.
    rewrite Hread. reflexivity.
  - intros exc Hread. unfold main_multiprocessing, load_keywords.
    rewrite Hread. reflexivity.
Qed.

Lemma main_prints_witness :
  exists result,
    main_multiprocessing main_demo = Done result /\
    has_pair result "Beta" "sample_files/b.TXT" /\
    ~ has_pair result "alpha" "sample_files/c.md".
Proof.
  destruct (main_prints main_demo (fun puts => Permutation_refl puts))
    as (Hmain & _).
  destruct (Hmain _ eq_refl) as (result & Hr & Hsound).
  exists result. split; [exact Hr|]. split.
  - vm_compute in Hr. injection Hr as <-.
    exists ["sample_files/a.txt"; "sample_files/b.TXT"].
    split; [reflexivity | right; left; reflexivity].
  - intros Hp. destruct (Hsound _ _ Hp) as (_ & _ & _ & Hext & _).
    vm_compute in Hext. discriminate Hext.
Defined.
